(** * Leaflet [Renderer] (src/layer/vector/Renderer.js): view synchronisation
    and invalidation protocol.

    The development is a shallow embedding of the [Renderer] base class.
    JavaScript numbers are idealised as exact rationals ([Q]); the concrete
    inputs of the counterexamples below are dyadic rationals of small
    magnitude, on which IEEE double arithmetic is exact as well.  Equality of
    numbers is [Qeq] ([==]).  The extent and the center of the cached bounds
    are stated within one pixel: the doubles of the source round where the
    rationals do not, and a rounded sum may then fall on the other side of a
    half.

    Methods of [Renderer] are actions of a small state/log/exception monad
    over the renderer object [this]: the state is the object's fields, the log
    records every call that leaves the object (DOM calls, listener
    registration, member-shape callbacks), and [Throw] is a JavaScript
    [TypeError] raised by dereferencing [undefined].  The callees are external
    to the class: a call is logged and returns, it does not re-enter the
    renderer. *)

From Stdlib Require Import QArith Qround Qabs Lqa String.
From stdpp Require Import base option list strings gmap sorting.

Local Open Scope Q_scope.

(** ** Geometry: [Point] and [Bounds] *)

(** Modelled from the spec: [Math.round] and the [Point] class of
    geometry/Point.js, which is imported by the source but is not part of it
    ("round to integer pixels").  [Math.round] rounds to the nearest integer,
    ties towards +infinity. *)
Definition Math_round (q : Q) : Q := inject_Z (Qfloor (q + (1 # 2))).

Definition Math_min (a b : Q) : Q := if Qle_bool a b then a else b.
Definition Math_max (a b : Q) : Q := if Qle_bool a b then b else a.

Module Point.
Record Point : Type := mk { x : Q; y : Q }.

Definition multiplyBy (p : Point) (num : Q) : Point :=
  mk (x p * num) (y p * num).
Definition add (p q : Point) : Point := mk (x p + x q) (y p + y q).
Definition subtract (p q : Point) : Point := mk (x p - x q) (y p - y q).
Definition round (p : Point) : Point := mk (Math_round (x p)) (Math_round (y p)).

(** Numeric equality of points. *)
Definition eq (p q : Point) : Prop := x p == x q /\ y p == y q.
End Point.
Abbreviation Point := Point.Point.
Infix "=p=" := Point.eq (at level 70, no associativity).

(** Modelled from the spec: the [Bounds] class of geometry/Bounds.js, which is
    imported by the source but is not part of it.  A [Bounds] is
    [{min; max}] with [min.x <= max.x] and [min.y <= max.y]; the two-point
    constructor extends an empty rectangle by its arguments in turn, so the
    invariant holds whatever the order of the corners. *)
Module Bounds.
Record Bounds : Type := mk { min : Point; max : Point }.

Definition new (a b : Point) : Bounds :=
  mk (Point.mk (Math_min (Point.x b) (Point.x a)) (Math_min (Point.y b) (Point.y a)))
     (Point.mk (Math_max (Point.x b) (Point.x a)) (Math_max (Point.y b) (Point.y a))).

Definition width (b : Bounds) : Q := Point.x (max b) - Point.x (min b).
Definition height (b : Bounds) : Q := Point.y (max b) - Point.y (min b).
Definition getCenter (b : Bounds) : Point :=
  Point.mk ((Point.x (min b) + Point.x (max b)) / 2)
           ((Point.y (min b) + Point.y (max b)) / 2).
End Bounds.
Abbreviation Bounds := Bounds.Bounds.

Record LatLng : Type := { lat : Q; lng : Q }.

(** ** The host viewport *)

(** The part of the map's interface the renderer calls.  A field of
    [Renderer] that has not been assigned yet reads as [undefined], and the
    renderer hands what it reads to the map unchanged; hence the [option]
    arguments ([None] is [undefined]). *)
Record Map : Type := {
  getSize : Point;
  getCenter : LatLng;
  getZoom : Q;
  getZoomScale : option Q -> option Q -> Q;
  project : option LatLng -> option Q -> Point;
  containerPointToLayerPoint : Point -> Point;
  _getNewPixelOrigin : option LatLng -> option Q -> Point
}.

(** ** The renderer object *)

(** A member shape ([Path]) is an external object; the renderer only holds a
    reference to it and calls its [_reset], [_project] and [_update]. *)
Inductive Path : Type := PathRef (n : N).

Inductive Callback : Type := cb_reset | cb_project | cb_update.

(** A DOM element is referred to by a handle. *)
Definition Element : Type := N.

(** The methods of [Renderer] that are registered as listeners. *)
Inductive Handler : Type :=
  h_reset | h_onZoom | h_update | h_onZoomEnd | h_onAnimZoom | h_updatePaths.

Record Options : Type := { padding : Q }.

Record Renderer : Type := {
  options : Options;
  _leaflet_id : option N;
  _layers : option (gmap N Path);
  _container : option Element;
  _map : option Map;
  _zoomAnimated : bool;
  _bounds : option Bounds;
  _center : option LatLng;
  _zoom : option Q
}.

(** The object a constructor call starts from: its [options] are the
    prototype's ([padding: 0.1]) and no other field is assigned. *)
Definition Renderer_prototype : Renderer :=
  {| options := {| padding := 1 # 10 |};
     _leaflet_id := None; _layers := None; _container := None; _map := None;
     _zoomAnimated := false; _bounds := None; _center := None; _zoom := None |}.

Definition set_options (o : Options) (r : Renderer) : Renderer :=
  {| options := o; _leaflet_id := _leaflet_id r; _layers := _layers r;
     _container := _container r; _map := _map r; _zoomAnimated := _zoomAnimated r;
     _bounds := _bounds r; _center := _center r; _zoom := _zoom r |}.
Definition set_leaflet_id (i : option N) (r : Renderer) : Renderer :=
  {| options := options r; _leaflet_id := i; _layers := _layers r;
     _container := _container r; _map := _map r; _zoomAnimated := _zoomAnimated r;
     _bounds := _bounds r; _center := _center r; _zoom := _zoom r |}.
Definition set_layers (l : option (gmap N Path)) (r : Renderer) : Renderer :=
  {| options := options r; _leaflet_id := _leaflet_id r; _layers := l;
     _container := _container r; _map := _map r; _zoomAnimated := _zoomAnimated r;
     _bounds := _bounds r; _center := _center r; _zoom := _zoom r |}.
Definition set_container (c : option Element) (r : Renderer) : Renderer :=
  {| options := options r; _leaflet_id := _leaflet_id r; _layers := _layers r;
     _container := c; _map := _map r; _zoomAnimated := _zoomAnimated r;
     _bounds := _bounds r; _center := _center r; _zoom := _zoom r |}.
Definition set_bounds (b : option Bounds) (r : Renderer) : Renderer :=
  {| options := options r; _leaflet_id := _leaflet_id r; _layers := _layers r;
     _container := _container r; _map := _map r; _zoomAnimated := _zoomAnimated r;
     _bounds := b; _center := _center r; _zoom := _zoom r |}.
Definition set_center (c : option LatLng) (r : Renderer) : Renderer :=
  {| options := options r; _leaflet_id := _leaflet_id r; _layers := _layers r;
     _container := _container r; _map := _map r; _zoomAnimated := _zoomAnimated r;
     _bounds := _bounds r; _center := c; _zoom := _zoom r |}.
Definition set_zoom (z : option Q) (r : Renderer) : Renderer :=
  {| options := options r; _leaflet_id := _leaflet_id r; _layers := _layers r;
     _container := _container r; _map := _map r; _zoomAnimated := _zoomAnimated r;
     _bounds := _bounds r; _center := _center r; _zoom := z |}.

(** ** Effects *)

(** Calls that leave the renderer object. *)
Inductive Effect : Type :=
| classList_add (el : Element) (cls : string)
| appendChild (el : Element)
| setTransform (el : Element) (offset : Point) (scale : Q)
| on (type : string) (fn : Handler)
| call (cb : Callback) (id : N) (layer : Path).

(** The cached snapshot a callee can read off the renderer while it runs. *)
Record View : Type := {
  seen_bounds : option Bounds;
  seen_center : option LatLng;
  seen_zoom : option Q
}.

Definition view (r : Renderer) : View :=
  {| seen_bounds := _bounds r; seen_center := _center r; seen_zoom := _zoom r |}.

(** Every entry of the log is stamped with the snapshot that was cached when
    the call was made, so that the order between assignments to the cache and
    the calls is visible in the log. *)
Definition Log : Type := list (View * Effect).

Inductive Result (A : Type) : Type :=
| OK (a : A) (this : Renderer) (log : Log)
| Throw.
Arguments OK {A} a this log.
Arguments Throw {A}.

Definition M (A : Type) : Type := Renderer -> Result A.

Definition ret {A} (a : A) : M A := fun this => OK a this [].
Definition bind {A B} (m : M A) (k : A -> M B) : M B :=
  fun this =>
    match m this with
    | OK a this1 log1 =>
        match k a this1 with
        | OK b this2 log2 => OK b this2 (log1 ++ log2)
        | Throw => Throw
        end
    | Throw => Throw
    end.
Definition get : M Renderer := fun this => OK this this [].
Definition modify (f : Renderer -> Renderer) : M unit := fun this => OK tt (f this) [].
Definition tell (e : Effect) : M unit := fun this => OK tt this [(view this, e)].
Definition throw {A} : M A := fun _ => Throw.

Declare Scope js_scope.
Delimit Scope js_scope with js.
Notation "x <- m ;; k" := (bind m (fun x => k))
  (at level 100, m at next level, right associativity) : js_scope.
Notation "m ;; k" := (bind m (fun _ => k))
  (at level 100, right associativity) : js_scope.
Local Open Scope js_scope.

(** Reading a property of [undefined] raises a [TypeError]. *)
Definition deref {A} (o : option A) : M A :=
  match o with Some a => ret a | None => throw end.

Fixpoint forEach {A} (l : list A) (body : A -> M unit) : M unit :=
  match l with
  | [] => ret tt
  | a :: l' => body a ;; forEach l' body
  end.

(** ** The member-shape registry *)

Definition id_le (a b : N * Path) : Prop := (a.1 <= b.1)%N.
#[global] Instance id_le_dec a b : Decision (id_le a b) := N.le_dec a.1 b.1.

(** The registry is keyed by the shapes' stamps, which are integers;
    [for (const id in this._layers)] visits integer keys in ascending
    order, and visits nothing when [this._layers] is [undefined]. *)
Definition entries (layers : option (gmap N Path)) : list (N * Path) :=
  match layers with
  | Some L => merge_sort id_le (map_to_list L)
  | None => []
  end.
Definition for_in (layers : option (gmap N Path)) : list N := (entries layers).*1.

Definition registered (this : Renderer) (id : N) : option Path :=
  match _layers this with Some L => L !! id | None => None end.

(** [this._layers[id].cb()] *)
Definition invoke (cb : Callback) (id : N) : M unit :=
  this <- get ;;
  layer <- deref (registered this id) ;;
  tell (call cb id layer).

(** ** Helpers of core/Util.js and dom/DomUtil.js *)

(** A JavaScript value, as far as an option can tell values apart. *)
Inductive JSValue : Type :=
| js_undefined
| js_null
| js_boolean (b : bool)
| js_number (q : Q)
| js_NaN
| js_string (s : string).

(** The [options] argument of the constructor: [user_padding] is [None] when
    the object has no [padding] property; the argument itself may be
    missing. *)
Record UserOptions : Type := { user_padding : option JSValue }.

(** Modelled from the spec: the test a supplied padding has to pass, "being a
    non-negative number". *)
Definition non_negative_number (v : JSValue) : option Q :=
  match v with
  | js_number q => if Qle_bool 0 q then Some q else None
  | _ => None
  end.

(** Modelled from the spec: [Util.setOptions] (core/Util.js is imported by the
    source but is not part of it).  The spec has "a single numeric padding
    option (default 0.1), validated only by being a non-negative number", and
    gives construction no failing path: a supplied padding that passes the
    test overrides the default of the class, any other value is not taken and
    the default stays. *)
Definition Util_setOptions (options : option UserOptions) : M unit :=
  this <- get ;;
  match options with
  | Some {| user_padding := Some v |} =>
      match non_negative_number v with
      | Some p => modify (set_options {| padding := p |})
      | None => ret tt
      end
  | _ => ret tt
  end.

(** Modelled from the spec: [Util.stamp] ("identity stamping"): an object
    that has no [_leaflet_id] yet receives the next value of the counter
    [lastId]; the result is the counter afterwards. *)
Definition Util_stamp (lastId : N) : M N :=
  this <- get ;;
  match _leaflet_id this with
  | Some _ => ret lastId
  | None => modify (set_leaflet_id (Some (lastId + 1)%N)) ;; ret (lastId + 1)%N
  end.

(** Modelled from the spec: [DomUtil.setTransform(el, offset, scale)] applies
    "translate by offset, scale uniformly by scale" to the element; the call
    itself is logged.  It dereferences [el]. *)
Definition DomUtil_setTransform (el : option Element) (offset : Point) (scale : Q) : M unit :=
  e <- deref el ;;
  tell (setTransform e offset scale).

(** ** The methods of [Renderer] *)

Definition initialize (options : option UserOptions) (lastId : N) : M N :=
  Util_setOptions options ;;
  lastId' <- Util_stamp lastId ;;
  this <- get ;;
  modify (set_layers (Some (default ∅ (_layers this)))) ;;
  ret lastId'.

Definition _update : M unit :=
  this <- get ;;
  let p := padding (options this) in
  map <- deref (_map this) ;;
  let size := getSize map in
  let min := Point.round (containerPointToLayerPoint map (Point.multiplyBy size (- p))) in
  modify (set_bounds (Some
    (Bounds.new min (Point.round (Point.add min (Point.multiplyBy size (1 + p * 2))))))) ;;
  modify (set_center (Some (getCenter map))) ;;
  modify (set_zoom (Some (getZoom map))).

Definition _updateTransform (center : option LatLng) (zoom : option Q) : M unit :=
  this <- get ;;
  map <- deref (_map this) ;;
  let scale := getZoomScale map zoom (_zoom this) in
  let viewHalf := Point.multiplyBy (getSize map) ((1 # 2) + padding (options this)) in
  let currentCenterPoint := project map (_center this) zoom in
  let topLeftOffset :=
    Point.subtract (Point.add (Point.multiplyBy viewHalf (- scale)) currentCenterPoint)
                   (_getNewPixelOrigin map center zoom) in
  DomUtil_setTransform (_container this) topLeftOffset scale.

(** The event object a listener receives; [center] and [zoom] are present on
    [zoomanim] events. *)
Record EventData : Type := { ev_center : option LatLng; ev_zoom : option Q }.

Definition _onAnimZoom (ev : EventData) : M unit :=
  _updateTransform (ev_center ev) (ev_zoom ev).

Definition _onZoom : M unit :=
  this <- get ;;
  map <- deref (_map this) ;;
  _updateTransform (Some (getCenter map)) (Some (getZoom map)).

Definition _reset : M unit :=
  _update ;;
  this <- get ;;
  _updateTransform (_center this) (_zoom this) ;;
  this <- get ;;
  forEach (for_in (_layers this)) (invoke cb_reset).

Definition _onZoomEnd : M unit :=
  this <- get ;;
  forEach (for_in (_layers this)) (invoke cb_project).

Definition _updatePaths : M unit :=
  this <- get ;;
  forEach (for_in (_layers this)) (invoke cb_update).

(** [_initContainer] is "defined by renderer implementations": it creates the
    DOM element of the renderer and stores it in [this._container].  The
    element the implementation creates is a parameter of the model. *)
Definition _initContainer (created : Element) : M unit :=
  modify (set_container (Some created)).

Definition onAdd (created : Element) : M unit :=
  this <- get ;;
  match _container this with
  | Some _ => ret tt
  | None =>
      _initContainer created ;;
      this <- get ;;
      el <- deref (_container this) ;;
      tell (classList_add el "leaflet-zoom-animated")
  end ;;
  this <- get ;;
  _ <- deref (_map this) ;;
  el <- deref (_container this) ;;
  tell (appendChild el) ;;
  _update ;;
  tell (on "update" h_updatePaths).

Definition getEvents (this : Renderer) : gmap string Handler :=
  let events : gmap string Handler :=
    {[ "viewreset" := h_reset; "zoom" := h_onZoom;
       "moveend" := h_update; "zoomend" := h_onZoomEnd ]} in
  if _zoomAnimated this then <["zoomanim" := h_onAnimZoom]> events else events.

Definition listener (fn : Handler) (ev : EventData) : M unit :=
  match fn with
  | h_reset => _reset
  | h_onZoom => _onZoom
  | h_update => _update
  | h_onZoomEnd => _onZoomEnd
  | h_onAnimZoom => _onAnimZoom ev
  | h_updatePaths => _updatePaths
  end.

(** Modelled from the spec: delivery of a viewport notification (Layer and
    Evented are not part of the source): the host calls, on the renderer, the
    listener that [getEvents] registers for the notification's kind, and
    nothing when there is none. *)
Definition notify (type : string) (ev : EventData) : M unit :=
  this <- get ;;
  match getEvents this !! type with
  | Some fn => listener fn ev
  | None => ret tt
  end.

(** ** Reading a log *)

Definition Callback_eqb (a b : Callback) : bool :=
  match a, b with
  | cb_reset, cb_reset | cb_project, cb_project | cb_update, cb_update => true
  | _, _ => false
  end.

Definition is_call (cb : Callback) (id : N) (e : View * Effect) : bool :=
  match e.2 with
  | call cb' id' _ => Callback_eqb cb cb' && (id =? id')%N
  | _ => false
  end.

Definition is_callback (e : View * Effect) : bool :=
  match e.2 with call _ _ _ => true | _ => false end.

Definition is_setTransform (e : View * Effect) : bool :=
  match e.2 with setTransform _ _ _ => true | _ => false end.

(** Number of times callback [cb] of the shape registered under [id] is
    called in a log. *)
Definition calls (cb : Callback) (id : N) (log : Log) : nat :=
  length (List.filter (is_call cb id) log).

(** ** A sample viewport *)

(** A viewport that follows Leaflet's [Map] over a flat coordinate system:
    a pixel is [2^zoom] units, the map pane is offset by [panePos]. *)
Definition flatProject (latlng : option LatLng) (zoom : option Q) : Point :=
  match latlng, zoom with
  | Some ll, Some z => Point.mk (lng ll * 2 ^ Qfloor z) (- lat ll * 2 ^ Qfloor z)
  | _, _ => Point.mk 0 0
  end.

Definition flatMap (size : Point) (center : LatLng) (zoom : Q) (panePos : Point) : Map :=
  {| getSize := size;
     getCenter := center;
     getZoom := zoom;
     getZoomScale := fun toZoom fromZoom =>
       2 ^ (Qfloor (default zoom toZoom) - Qfloor (default zoom fromZoom));
     project := flatProject;
     containerPointToLayerPoint := fun p => Point.subtract p panePos;
     _getNewPixelOrigin := fun c z =>
       Point.round (Point.add (Point.subtract (flatProject c z)
                                              (Point.multiplyBy size (1 # 2)))
                              panePos) |}.

Definition shapeA : Path := PathRef 101.
Definition shapeB : Path := PathRef 102.

(** An 800 x 600 viewport at zoom 5 around (0, 0), the map pane at rest. *)
Definition sampleMap : Map :=
  flatMap (Point.mk 800 600) {| lat := 0; lng := 0 |} 5 (Point.mk 0 0).

(** A renderer attached to [sampleMap], with padding 1/4 and two member
    shapes; its cache is still empty. *)
Definition attached : Renderer :=
  {| options := {| padding := 1 # 4 |};
     _leaflet_id := Some 7%N;
     _layers := Some (<[12%N := shapeB]> (<[9%N := shapeA]> ∅));
     _container := Some 1%N;
     _map := Some sampleMap;
     _zoomAnimated := true;
     _bounds := None; _center := None; _zoom := None |}.

Definition noEventData : EventData := {| ev_center := None; ev_zoom := None |}.

(** ** What the methods compute *)

(** The renderer after [_update] has run against viewport [m]. *)
Definition updated (m : Map) (this : Renderer) : Renderer :=
  let p := padding (options this) in
  let min := Point.round (containerPointToLayerPoint m (Point.multiplyBy (getSize m) (- p))) in
  set_zoom (Some (getZoom m))
    (set_center (Some (getCenter m))
       (set_bounds (Some (Bounds.new min
          (Point.round (Point.add min (Point.multiplyBy (getSize m) (1 + p * 2))))))
          this)).

(** The transform [_updateTransform center zoom] computes against viewport
    [m], as the source writes it. *)
Definition scale_of (m : Map) (this : Renderer) (zoom : option Q) : Q :=
  getZoomScale m zoom (_zoom this).
Definition topLeftOffset_of (m : Map) (this : Renderer)
    (center : option LatLng) (zoom : option Q) : Point :=
  Point.subtract
    (Point.add
       (Point.multiplyBy
          (Point.multiplyBy (getSize m) ((1 # 2) + padding (options this)))
          (- scale_of m this zoom))
       (project m (_center this) zoom))
    (_getNewPixelOrigin m center zoom).

(** An action never writes the registry. *)
Definition preserves_layers {A} (m : M A) : Prop :=
  forall this a this' log, m this = OK a this' log -> _layers this' = _layers this.

(** ** More sample renderers *)

(** The renderer [attached] once its cache is filled. *)
Definition settled : Renderer := updated sampleMap attached.

(** The renderer [attached] before its container exists. *)
Definition unattached : Renderer := set_container None attached.

(** An 801 x 600 viewport, the map pane at rest, and a renderer with padding
    1/4 attached to it. *)
Definition oddMap : Map :=
  flatMap (Point.mk 801 600) {| lat := 0; lng := 0 |} 5 (Point.mk 0 0).
Definition odd : Renderer :=
  {| options := {| padding := 1 # 4 |};
     _leaflet_id := Some 8%N; _layers := Some ∅; _container := Some 2%N;
     _map := Some oddMap; _zoomAnimated := false;
     _bounds := None; _center := None; _zoom := None |}.

(** The renderer [attached] with the padding -1/4. *)
Definition sampleMap_shrunk_renderer : Renderer :=
  set_options {| padding := - (1 # 4) |} attached.

(** * Properties *)

(** ** Iteration over the registry *)

Section Registry.
Implicit Types (layers : option (gmap N Path)) (this : Renderer) (id : N).

Lemma elem_of_entries layers id l :
  (id, l) ∈ entries layers <-> exists L, layers = Some L /\ L !! id = Some l.
Proof.
  destruct layers as [L|]; simpl.
  - rewrite merge_sort_Permutation, elem_of_map_to_list.
    split; [intros H; exists L; auto | intros (L' & [= <-] & H); exact H].
  - split; [intros H; inversion H | intros (L & [=] & _)].
Qed.

Lemma entries_registered this id l :
  (id, l) ∈ entries (_layers this) <-> registered this id = Some l.
Proof.
  rewrite elem_of_entries. unfold registered.
  destruct (_layers this) as [L|]; split.
  - intros (L' & [= <-] & H); exact H.
  - intros H; exists L; auto.
  - intros (L' & [=] & _).
  - intros [=].
Qed.

Lemma for_in_registered this id :
  id ∈ for_in (_layers this) <-> is_Some (registered this id).
Proof.
  unfold for_in. rewrite list_elem_of_fmap. split.
  - intros ([id' l] & -> & H). apply entries_registered in H. now exists l.
  - intros [l H]. exists (id, l). split; [reflexivity | now apply entries_registered].
Qed.

Lemma NoDup_for_in layers : NoDup (for_in layers).
Proof.
  unfold for_in. destruct layers as [L|]; simpl; [|constructor].
  rewrite merge_sort_Permutation. apply NoDup_fst_map_to_list.
Qed.

#[local] Instance id_le_total : Total id_le.
Proof. intros a b. unfold id_le. apply N.le_ge_cases. Qed.

(** Shapes are visited by ascending identifier. *)
Lemma for_in_ascending layers : Sorted N.le (for_in layers).
Proof.
  unfold for_in. destruct layers as [L|]; simpl; [|constructor].
  apply (Sorted_fmap fst id_le N.le); [intros a b H; exact H|].
  apply Sorted_merge_sort; apply _.
Qed.

(** One iteration: the callback of the shape found under [id]. *)
Lemma invoke_registered cb this id l :
  registered this id = Some l ->
  invoke cb id this = OK tt this [(view this, call cb id l)].
Proof. intros H. unfold invoke, bind, get, deref. rewrite H. reflexivity. Qed.

Lemma forEach_invoke cb this (es : list (N * Path)) :
  (forall id l, (id, l) ∈ es -> registered this id = Some l) ->
  forEach es.*1 (invoke cb) this
  = OK tt this ((fun e => (view this, call cb e.1 e.2)) <$> es).
Proof.
  induction es as [|[id l] es IH]; intros H; csimpl; [reflexivity|].
  unfold bind. rewrite (invoke_registered cb this id l) by (apply H; left).
  rewrite IH by (intros id' l' H'; apply H; now right). reflexivity.
Qed.

(** The three loops of the source: each runs the callback over the
    registry as it is, and leaves the renderer as it found it. *)
Lemma dispatch cb this :
  forEach (for_in (_layers this)) (invoke cb) this
  = OK tt this ((fun e => (view this, call cb e.1 e.2)) <$> entries (_layers this)).
Proof. apply forEach_invoke. intros id l. apply entries_registered. Qed.

Lemma calls_cons cb id e log :
  calls cb id (e :: log)
  = ((if is_call cb id e then 1 else 0) + calls cb id log)%nat.
Proof. unfold calls. simpl. now destruct (is_call cb id e). Qed.

Lemma calls_fmap_notin cb cb' v id (es : list (N * Path)) :
  id ∉ es.*1 ->
  calls cb id ((fun e => (v, call cb' e.1 e.2)) <$> es) = 0%nat.
Proof.
  induction es as [|[id' l] es IH]; intros H; [reflexivity|].
  rewrite fmap_cons, not_elem_of_cons in H. destruct H as [Hne H].
  rewrite fmap_cons, calls_cons, IH by exact H.
  unfold is_call; simpl.
  destruct (N.eqb_spec id id') as [->|_]; [contradiction|].
  now rewrite andb_false_r.
Qed.

Lemma calls_fmap cb cb' v id (es : list (N * Path)) :
  NoDup es.*1 ->
  calls cb id ((fun e => (v, call cb' e.1 e.2)) <$> es)
  = if Callback_eqb cb cb' && bool_decide (id ∈ es.*1) then 1%nat else 0%nat.
Proof.
  induction es as [|[id' l] es IH]; intros Hnd.
  - rewrite andb_false_r. reflexivity.
  - rewrite fmap_cons in Hnd. apply NoDup_cons in Hnd as [Hnotin Hnd].
    rewrite !fmap_cons, calls_cons. unfold is_call; simpl.
    destruct (N.eqb_spec id id') as [->|Hne].
    + rewrite (calls_fmap_notin cb cb' v id' es Hnotin).
      rewrite (bool_decide_eq_true_2 (id' ∈ id' :: es.*1)) by left.
      rewrite !andb_true_r. now destruct (Callback_eqb cb cb').
    + rewrite andb_false_r, (IH Hnd). simpl.
      rewrite (bool_decide_ext (id ∈ id' :: es.*1) (id ∈ es.*1)); [reflexivity|].
      rewrite elem_of_cons. tauto.
Qed.

(** In the log of a loop over the registry, the callback of a shape occurs
    once when the shape is registered and never otherwise. *)
Lemma calls_dispatch cb cb' this id :
  calls cb id ((fun e => (view this, call cb' e.1 e.2)) <$> entries (_layers this))
  = match registered this id with
    | Some _ => if Callback_eqb cb cb' then 1%nat else 0%nat
    | None => 0%nat
    end.
Proof.
  rewrite calls_fmap by apply NoDup_for_in.
  fold (for_in (_layers this)).
  destruct (registered this id) as [l|] eqn:E.
  - rewrite bool_decide_eq_true_2 by (apply for_in_registered; now exists l).
    now rewrite andb_true_r.
  - rewrite bool_decide_eq_false_2.
    + now rewrite andb_false_r.
    + rewrite for_in_registered, E. intros [? [=]].
Qed.

Lemma dispatch_log_calls cb this :
  Forall (fun e => exists id l, e = (view this, call cb id l) /\ registered this id = Some l)
         ((fun e => (view this, call cb e.1 e.2)) <$> entries (_layers this)).
Proof.
  apply Forall_fmap, Forall_forall. intros [id l] H. simpl.
  exists id, l. split; [reflexivity | now apply entries_registered].
Qed.
End Registry.

(** ** Running a sequence of statements *)

Lemma bind_OK {A B} (m : M A) (k : A -> M B) this a this1 log1 b this2 log2 log :
  m this = OK a this1 log1 ->
  k a this1 = OK b this2 log2 ->
  log = log1 ++ log2 ->
  bind m k this = OK b this2 log.
Proof. intros H1 H2 ->. unfold bind. rewrite H1, H2. reflexivity. Qed.

Lemma bind_Throw {A B} (m : M A) (k : A -> M B) this :
  m this = Throw -> bind m k this = Throw.
Proof. intros H. unfold bind. now rewrite H. Qed.

Lemma get_run this : get this = OK this this [].
Proof. reflexivity. Qed.

(** Run the first statement of a sequence with the equation [H] for it. *)
Ltac run_bind H :=
  eapply bind_OK; [exact H | cbv beta | reflexivity].

(** ** The methods, run on an attached renderer *)

Section Runs.
Implicit Types (this : Renderer) (m : Map) (el : Element).

Lemma _update_run this m :
  _map this = Some m -> _update this = OK tt (updated m this) [].
Proof. intros Hm. unfold _update, bind, get, deref. rewrite Hm. reflexivity. Qed.

Lemma _update_Throw this : _map this = None -> _update this = Throw.
Proof. intros Hm. unfold _update, bind, get, deref. rewrite Hm. reflexivity. Qed.

Lemma _updateTransform_run this m el center zoom :
  _map this = Some m ->
  _container this = Some el ->
  _updateTransform center zoom this
  = OK tt this
      [(view this,
        setTransform el (topLeftOffset_of m this center zoom) (scale_of m this zoom))].
Proof.
  intros Hm Hel. unfold _updateTransform, DomUtil_setTransform, bind, get, deref.
  rewrite Hm. simpl. rewrite Hel. reflexivity.
Qed.

Lemma _reset_run this m el :
  _map this = Some m ->
  _container this = Some el ->
  let this' := updated m this in
  _reset this
  = OK tt this'
      ((view this',
        setTransform el (topLeftOffset_of m this' (_center this') (_zoom this'))
                        (scale_of m this' (_zoom this')))
       :: ((fun e => (view this', call cb_reset e.1 e.2)) <$> entries (_layers this))).
Proof.
  intros Hm Hel this'. unfold _reset.
  run_bind (_update_run this m Hm).
  run_bind (get_run this').
  run_bind (_updateTransform_run this' m el (_center this') (_zoom this') Hm Hel).
  run_bind (get_run this').
  exact (dispatch cb_reset this').
Qed.

Lemma _onZoomEnd_run this :
  _onZoomEnd this
  = OK tt this ((fun e => (view this, call cb_project e.1 e.2)) <$> entries (_layers this)).
Proof. unfold _onZoomEnd. run_bind (get_run this). exact (dispatch cb_project this). Qed.

Lemma _updatePaths_run this :
  _updatePaths this
  = OK tt this ((fun e => (view this, call cb_update e.1 e.2)) <$> entries (_layers this)).
Proof. unfold _updatePaths. run_bind (get_run this). exact (dispatch cb_update this). Qed.

(** Which listener a notification reaches. *)
Lemma getEvents_lookup this type fn :
  type <> "zoomanim" ->
  ({[ "viewreset" := h_reset; "zoom" := h_onZoom;
      "moveend" := h_update; "zoomend" := h_onZoomEnd ]} : gmap string Handler) !! type
    = Some fn ->
  getEvents this !! type = Some fn.
Proof.
  intros Hne H. unfold getEvents. destruct (_zoomAnimated this); [|exact H].
  rewrite lookup_insert_ne by congruence. exact H.
Qed.

Lemma notify_listener this type ev fn :
  getEvents this !! type = Some fn ->
  notify type ev this = listener fn ev this.
Proof.
  intros H. unfold notify, bind, get. rewrite H.
  destruct (listener fn ev this); [rewrite app_nil_l|]; reflexivity.
Qed.

Lemma notify_viewreset this ev : notify "viewreset" ev this = _reset this.
Proof. apply (notify_listener this _ ev h_reset), getEvents_lookup; [discriminate|reflexivity]. Qed.
Lemma notify_zoom this ev : notify "zoom" ev this = _onZoom this.
Proof. apply (notify_listener this _ ev h_onZoom), getEvents_lookup; [discriminate|reflexivity]. Qed.
Lemma notify_moveend this ev : notify "moveend" ev this = _update this.
Proof. apply (notify_listener this _ ev h_update), getEvents_lookup; [discriminate|reflexivity]. Qed.
Lemma notify_zoomend this ev : notify "zoomend" ev this = _onZoomEnd this.
Proof. apply (notify_listener this _ ev h_onZoomEnd), getEvents_lookup; [discriminate|reflexivity]. Qed.
Lemma notify_zoomanim this ev :
  _zoomAnimated this = true -> notify "zoomanim" ev this = _onAnimZoom ev this.
Proof.
  intros H. apply (notify_listener this _ ev h_onAnimZoom).
  unfold getEvents. rewrite H. apply lookup_insert_eq.
Qed.
End Runs.

(** ** The registry is never written *)

Create HintDb layers.

Section PreservesLayers.
Lemma preserves_ret {A} (a : A) : preserves_layers (ret a).
Proof. intros this a' this' log [= _ <- _]. reflexivity. Qed.
Lemma preserves_get : preserves_layers get.
Proof. intros this a' this' log [= _ <- _]. reflexivity. Qed.
Lemma preserves_throw {A} : preserves_layers (@throw A).
Proof. intros this a' this' log [=]. Qed.
Lemma preserves_tell e : preserves_layers (tell e).
Proof. intros this a' this' log [= _ <- _]. reflexivity. Qed.
Lemma preserves_deref {A} (o : option A) : preserves_layers (deref o).
Proof. destruct o; [apply preserves_ret | apply preserves_throw]. Qed.
Lemma preserves_modify f :
  (forall this, _layers (f this) = _layers this) -> preserves_layers (modify f).
Proof. intros H this a' this' log [= _ <- _]. apply H. Qed.
Lemma preserves_bind {A B} (m : M A) (k : A -> M B) :
  preserves_layers m -> (forall a, preserves_layers (k a)) -> preserves_layers (bind m k).
Proof.
  intros Hm Hk this b this2 log. unfold bind.
  destruct (m this) as [a this1 log1|] eqn:E1; [|discriminate].
  destruct (k a this1) as [b' this2' log2|] eqn:E2; [|discriminate].
  intros [= _ <- _]. rewrite (Hk _ _ _ _ _ E2). exact (Hm _ _ _ _ E1).
Qed.
Lemma preserves_forEach {A} (l : list A) (body : A -> M unit) :
  (forall a, preserves_layers (body a)) -> preserves_layers (forEach l body).
Proof.
  intros H. induction l as [|a l IH]; simpl.
  - apply preserves_ret.
  - apply preserves_bind; [apply H | intros _; exact IH].
Qed.
End PreservesLayers.

#[local] Hint Resolve preserves_ret preserves_get preserves_throw preserves_tell
  preserves_deref preserves_modify preserves_bind preserves_forEach : layers.

Ltac preserves :=
  repeat first
    [ apply preserves_bind; [|intros ?]
    | apply preserves_forEach; intros ?
    | apply preserves_modify; intros ?; reflexivity
    | solve [auto with layers] ].

Lemma preserves_invoke cb id : preserves_layers (invoke cb id).
Proof. unfold invoke. preserves. Qed.
#[local] Hint Resolve preserves_invoke : layers.

Lemma preserves__update : preserves_layers _update.
Proof. unfold _update. preserves. Qed.

Lemma preserves__updateTransform center zoom : preserves_layers (_updateTransform center zoom).
Proof. unfold _updateTransform, DomUtil_setTransform. preserves. Qed.
#[local] Hint Resolve preserves__update preserves__updateTransform : layers.

Lemma preserves__reset : preserves_layers _reset.
Proof. unfold _reset. preserves. Qed.
Lemma preserves__onZoom : preserves_layers _onZoom.
Proof. unfold _onZoom. preserves. Qed.
Lemma preserves__onZoomEnd : preserves_layers _onZoomEnd.
Proof. unfold _onZoomEnd. preserves. Qed.
Lemma preserves__updatePaths : preserves_layers _updatePaths.
Proof. unfold _updatePaths. preserves. Qed.
Lemma preserves__onAnimZoom ev : preserves_layers (_onAnimZoom ev).
Proof. unfold _onAnimZoom. preserves. Qed.

Lemma preserves_listener fn ev : preserves_layers (listener fn ev).
Proof.
  destruct fn; simpl;
    auto using preserves__reset, preserves__onZoom, preserves__update,
      preserves__onZoomEnd, preserves__onAnimZoom, preserves__updatePaths.
Qed.

Lemma preserves_notify type ev : preserves_layers (notify type ev).
Proof.
  unfold notify. apply preserves_bind; [apply preserves_get|]. intros this.
  destruct (getEvents this !! type); [apply preserves_listener | apply preserves_ret].
Qed.

Lemma preserves_onAdd created : preserves_layers (onAdd created).
Proof.
  unfold onAdd, _initContainer.
  apply preserves_bind; [apply preserves_get|]. intros this.
  apply preserves_bind.
  - destruct (_container this); preserves.
  - intros _. preserves.
Qed.

(** ** Rounding *)

Section Rounding.
Implicit Types (q a b s p : Q) (z : Z).

Lemma Qfloor_unique q z : inject_Z z <= q -> q < inject_Z (z + 1) -> Qfloor q = z.
Proof.
  intros Hle Hlt.
  pose proof (Qfloor_le q) as H1. pose proof (Qlt_floor q) as H2.
  assert (Ha : (z < Qfloor q + 1)%Z).
  { rewrite Zlt_Qlt. eapply Qle_lt_trans; [exact Hle | exact H2]. }
  assert (Hb : (Qfloor q < z + 1)%Z).
  { rewrite Zlt_Qlt. eapply Qle_lt_trans; [exact H1 | exact Hlt]. }
  lia.
Qed.

Lemma Qfloor_shift z q : Qfloor (inject_Z z + q) = (z + Qfloor q)%Z.
Proof.
  pose proof (Qfloor_le q) as H1. pose proof (Qlt_floor q) as H2.
  apply Qfloor_unique.
  - rewrite inject_Z_plus. lra.
  - rewrite <- Z.add_assoc, inject_Z_plus. lra.
Qed.

(** [Math.round] moves a number by at most half a unit. *)
Lemma Math_round_near q : q - (1 # 2) < Math_round q /\ Math_round q <= q + (1 # 2).
Proof.
  unfold Math_round.
  pose proof (Qfloor_le (q + (1 # 2))) as H1.
  pose proof (Qlt_floor (q + (1 # 2))) as H2.
  rewrite inject_Z_plus in H2. change (inject_Z 1) with 1 in H2.
  split; lra.
Qed.

(** Adding an integer commutes with [Math.round]. *)
Lemma Math_round_shift a q :
  Math_round (Math_round a + q) == Math_round a + Math_round q.
Proof.
  unfold Math_round at 1 3.
  assert (E : Math_round a + q + (1 # 2) == inject_Z (Qfloor (a + (1 # 2))) + (q + (1 # 2)))
    by (unfold Math_round; ring).
  rewrite (Qfloor_comp _ _ E), Qfloor_shift, inject_Z_plus.
  unfold Math_round. reflexivity.
Qed.

Lemma Math_round_nonneg q : 0 <= q -> 0 <= Math_round q.
Proof.
  intros H. unfold Math_round.
  assert (H0 : 0 <= q + (1 # 2)) by lra.
  apply Qfloor_resp_le in H0. change (Qfloor 0) with 0%Z in H0.
  rewrite Zle_Qle in H0. exact H0.
Qed.

Lemma Math_min_r a b : a <= b -> Math_min b a == a.
Proof.
  intros H. unfold Math_min. destruct (Qle_bool b a) eqn:E; [|reflexivity].
  apply Qle_bool_iff in E. lra.
Qed.

Lemma Math_max_r a b : a <= b -> Math_max b a == b.
Proof.
  intros H. unfold Math_max. destruct (Qle_bool b a) eqn:E; [|reflexivity].
  apply Qle_bool_iff in E. lra.
Qed.

(** One axis of the padded bounds: [a] is the coordinate of the padded
    corner before rounding, [s] the size of the viewport along the axis. *)
Lemma padded_axis s p a :
  0 <= s -> 0 <= p ->
  let lo := Math_round a in
  let hi := Math_round (lo + s * (1 + p * 2)) in
  Math_min hi lo == lo
  /\ Math_max hi lo == hi
  /\ hi - lo == Math_round (s * (1 + p * 2)).
Proof.
  intros Hs Hp lo hi.
  assert (Hw : 0 <= s * (1 + p * 2)) by (apply Qmult_le_0_compat; lra).
  assert (Hhi : hi == lo + Math_round (s * (1 + p * 2)))
    by (unfold hi, lo; apply Math_round_shift).
  pose proof (Math_round_nonneg _ Hw) as Hr.
  assert (Hle : lo <= hi) by lra.
  split; [exact (Math_min_r lo hi Hle)|].
  split; [exact (Math_max_r lo hi Hle)|]. lra.
Qed.

(** The midpoint of the axis is within 3/4 of a pixel of the midpoint of the
    inflated viewport. *)
Lemma padded_axis_center s p a t :
  0 <= s -> 0 <= p ->
  t == a + s * (1 + p * 2) * (1 # 2) ->
  let lo := Math_round a in
  let hi := Math_round (lo + s * (1 + p * 2)) in
  Qabs ((Math_min hi lo + Math_max hi lo) / 2 - t) <= 3 # 4.
Proof.
  intros Hs Hp Ht lo hi.
  destruct (padded_axis s p a Hs Hp) as (Hmin & Hmax & Hw).
  fold lo in Hmin, Hmax, Hw. fold hi in Hmin, Hmax, Hw.
  destruct (Math_round_near a) as [Ha1 Ha2]. fold lo in Ha1, Ha2.
  destruct (Math_round_near (s * (1 + p * 2))) as [Hw1 Hw2].
  apply Qabs_Qle_condition.
  rewrite Hmin, Hmax, Ht.
  set (w := s * (1 + p * 2)) in *.
  set (r := Math_round w) in *.
  clearbody r w lo hi.
  assert (E : (lo + hi) / 2 == (lo + hi) * (1 # 2)) by field.
  rewrite E. split; lra.
Qed.
End Rounding.

Lemma Math_round_comp a b : a == b -> Math_round a == Math_round b.
Proof. intros E. unfold Math_round. rewrite E. reflexivity. Qed.

(** ** The incremental transform *)

(** C1: for every center/zoom pair, [_updateTransform] applies to the
    container one transform, translation by [offset] with uniform scale
    [scale], where [scale = getZoomScale(zoom, cachedZoom)],
    [viewHalfExtent = size * (0.5 + padding)],
    [currentCenterPixel = project(cachedCenter, zoom)] and
    [offset = viewHalfExtent * (-scale) + currentCenterPixel
              - newPixelOrigin(center, zoom)]. *)
Theorem updateTransform_formula (this : Renderer) (m : Map) (el : Element)
    (center : option LatLng) (zoom : option Q) :
  _map this = Some m ->
  _container this = Some el ->
  let scale := getZoomScale m zoom (_zoom this) in
  let viewHalfExtent := Point.mk (Point.x (getSize m) * ((1 # 2) + padding (options this)))
                                 (Point.y (getSize m) * ((1 # 2) + padding (options this))) in
  let currentCenterPixel := project m (_center this) zoom in
  let newPixelOrigin := _getNewPixelOrigin m center zoom in
  exists offset : Point,
    _updateTransform center zoom this
      = OK tt this [(view this, setTransform el offset scale)]
    /\ Point.x offset
       = Point.x viewHalfExtent * - scale + Point.x currentCenterPixel - Point.x newPixelOrigin
    /\ Point.y offset
       = Point.y viewHalfExtent * - scale + Point.y currentCenterPixel - Point.y newPixelOrigin.
Proof.
  intros Hm Hel scale viewHalfExtent currentCenterPixel newPixelOrigin.
  exists (topLeftOffset_of m this center zoom). split.
  - exact (_updateTransform_run this m el center zoom Hm Hel).
  - split; reflexivity.
Qed.

Lemma updateTransform_formula_witness :
  _map settled = Some sampleMap /\ _container settled = Some 1%N /\
  exists offset : Point,
    _updateTransform (Some {| lat := 10; lng := 20 |}) (Some 6) settled
      = OK tt settled
          [(view settled, setTransform 1%N offset (getZoomScale sampleMap (Some 6) (_zoom settled)))]
    /\ Point.x offset
       = 800 * ((1 # 2) + (1 # 4)) * - getZoomScale sampleMap (Some 6) (_zoom settled)
         + Point.x (project sampleMap (_center settled) (Some 6))
         - Point.x (_getNewPixelOrigin sampleMap (Some {| lat := 10; lng := 20 |}) (Some 6)).
Proof.
  split; [reflexivity|]. split; [reflexivity|].
  destruct (updateTransform_formula settled sampleMap 1%N
              (Some {| lat := 10; lng := 20 |}) (Some 6) eq_refl eq_refl)
    as (offset & Hrun & Hx & _).
  exists offset. split; [exact Hrun | exact Hx].
Defined.

(** C8: a zoom-animation frame only applies the transform computed for the
    frame's center and zoom: the renderer (cached bounds, center and zoom,
    registry) is left as it was, and no member-shape callback is called. *)
Theorem animation_frame_only_transforms (this : Renderer) (m : Map) (el : Element)
    (ev : EventData) :
  _map this = Some m ->
  _container this = Some el ->
  exists this' log,
    _onAnimZoom ev this = OK tt this' log
    /\ (_zoomAnimated this = true -> notify "zoomanim" ev this = OK tt this' log)
    /\ log = [(view this,
               setTransform el (topLeftOffset_of m this (ev_center ev) (ev_zoom ev))
                               (scale_of m this (ev_zoom ev)))]
    /\ this' = this
    /\ _bounds this' = _bounds this /\ _center this' = _center this
    /\ _zoom this' = _zoom this /\ _layers this' = _layers this
    /\ forall cb id, calls cb id log = 0%nat.
Proof.
  intros Hm Hel.
  pose proof (_updateTransform_run this m el (ev_center ev) (ev_zoom ev) Hm Hel) as Hrun.
  eexists this, _. split; [exact Hrun|].
  split; [intros Hz; rewrite (notify_zoomanim this ev Hz); exact Hrun|].
  repeat split; reflexivity.
Qed.

Lemma animation_frame_only_transforms_witness :
  _map settled = Some sampleMap /\ _container settled = Some 1%N /\
  exists log,
    _onAnimZoom {| ev_center := Some {| lat := 10; lng := 20 |}; ev_zoom := Some 6 |} settled
      = OK tt settled log
    /\ forall cb id, calls cb id log = 0%nat.
Proof.
  split; [reflexivity|]. split; [reflexivity|].
  destruct (animation_frame_only_transforms settled sampleMap 1%N
              {| ev_center := Some {| lat := 10; lng := 20 |}; ev_zoom := Some 6 |}
              eq_refl eq_refl)
    as (this' & log & Hrun & _ & _ & Hthis & _ & _ & _ & _ & Hcalls).
  exists log. split; [rewrite Hthis in Hrun; exact Hrun | exact Hcalls].
Defined.

(** ** Dispatch to the member shapes *)

(** C4: handling [zoomend] calls [_project] once on every registered shape and
    does nothing else: the renderer is left as it was (no bounds
    recomputation), and the log holds the [_project] calls only (no transform,
    no [_update]). *)
Theorem zoomend_projects_every_shape_once (this : Renderer) (ev : EventData) :
  exists log,
    notify "zoomend" ev this = OK tt this log
    /\ (forall id, calls cb_project id log
                   = match registered this id with Some _ => 1%nat | None => 0%nat end)
    /\ (forall id, calls cb_update id log = 0%nat)
    /\ (forall id, calls cb_reset id log = 0%nat)
    /\ Forall (fun e => exists id layer,
                 e = (view this, call cb_project id layer)
                 /\ registered this id = Some layer) log.
Proof.
  eexists. split; [rewrite notify_zoomend; apply _onZoomEnd_run|].
  split; [|split; [|split]].
  - intros id. rewrite calls_dispatch. now destruct (registered this id).
  - intros id. rewrite calls_dispatch. now destruct (registered this id).
  - intros id. rewrite calls_dispatch. now destruct (registered this id).
  - apply dispatch_log_calls.
Qed.

(** C6: handling [viewreset] recomputes the bounds, applies the transform and
    only then calls [_reset] on the shapes: the first entry of the log is the
    transform, made when the new bounds, center and zoom were already cached;
    the rest is one [_reset] per registered shape, each made with the same
    cache in place. *)
Theorem viewreset_bounds_and_transform_before_callbacks
    (this : Renderer) (m : Map) (el : Element) (ev : EventData) :
  _map this = Some m ->
  _container this = Some el ->
  exists this' offset scale callbacks,
    _update this = OK tt this' []
    /\ _updateTransform (_center this') (_zoom this') this'
       = OK tt this' [(view this', setTransform el offset scale)]
    /\ notify "viewreset" ev this
       = OK tt this' ((view this', setTransform el offset scale) :: callbacks)
    /\ Forall (fun e => exists id layer,
                 e = (view this', call cb_reset id layer)
                 /\ registered this id = Some layer) callbacks
    /\ (forall id, calls cb_reset id callbacks
                   = match registered this id with Some _ => 1%nat | None => 0%nat end)
    /\ seen_center (view this') = Some (getCenter m)
    /\ seen_zoom (view this') = Some (getZoom m)
    /\ seen_bounds (view this') = _bounds (updated m this).
Proof.
  intros Hm Hel. set (this' := updated m this).
  exists this', (topLeftOffset_of m this' (_center this') (_zoom this')),
         (scale_of m this' (_zoom this')),
         ((fun e => (view this', call cb_reset e.1 e.2)) <$> entries (_layers this')).
  split; [exact (_update_run this m Hm)|].
  split; [exact (_updateTransform_run this' m el _ _ Hm Hel)|].
  split; [rewrite notify_viewreset; exact (_reset_run this m el Hm Hel)|].
  split; [exact (dispatch_log_calls cb_reset this')|].
  split; [|repeat split].
  intros id. rewrite calls_dispatch. reflexivity.
Qed.

Lemma viewreset_bounds_and_transform_before_callbacks_witness :
  _map attached = Some sampleMap /\ _container attached = Some 1%N /\
  exists this' offset scale callbacks,
    notify "viewreset" noEventData attached
      = OK tt this' ((view this', setTransform 1%N offset scale) :: callbacks)
    /\ calls cb_reset 9 callbacks = 1%nat.
Proof.
  split; [reflexivity|]. split; [reflexivity|].
  destruct (viewreset_bounds_and_transform_before_callbacks attached sampleMap 1%N
              noEventData eq_refl eq_refl)
    as (this' & offset & scale & callbacks & _ & _ & Hrun & _ & Hcalls & _).
  exists this', offset, scale, callbacks. split; [exact Hrun|].
  exact (Hcalls 9%N).
Defined.

Lemma calls_setTransform_cons cb id v el offset scale log :
  calls cb id ((v, setTransform el offset scale) :: log) = calls cb id log.
Proof. rewrite calls_cons. reflexivity. Qed.

Lemma initialize_run (opts : option UserOptions) (lastId : N) (this : Renderer) :
  exists n this',
    initialize opts lastId this = OK n this' []
    /\ _layers this' = Some (default ∅ (_layers this))
    /\ padding (options this')
       = match opts with
         | Some {| user_padding := Some v |} =>
             default (padding (options this)) (non_negative_number v)
         | _ => padding (options this)
         end.
Proof.
  unfold initialize, Util_setOptions, Util_stamp.
  destruct opts as [[[v|]]|]; [destruct (non_negative_number v) as [p|]| |];
    destruct (_leaflet_id this) as [i|] eqn:E;
    unfold bind, get, modify, ret; simpl; rewrite ?E; simpl;
    eexists _, _; (split; [reflexivity | split; reflexivity]).
Qed.

(** C10: the core never adds or removes registry entries.  [initialize] keeps
    a registry that is already there; [_reset], [_onZoomEnd] and
    [_updatePaths] call the corresponding callback once per registered shape
    and leave the registry as it was; and no listener, nor [onAdd], changes
    the registry whenever it returns. *)
Theorem registry_only_iterated (this : Renderer) :
  (forall opts lastId, exists n this',
      initialize opts lastId this = OK n this' []
      /\ forall L, _layers this = Some L -> _layers this' = Some L)
  /\ (exists log,
        _onZoomEnd this = OK tt this log
        /\ forall id, calls cb_project id log
                      = match registered this id with Some _ => 1%nat | None => 0%nat end)
  /\ (exists log,
        _updatePaths this = OK tt this log
        /\ forall id, calls cb_update id log
                      = match registered this id with Some _ => 1%nat | None => 0%nat end)
  /\ (forall m el, _map this = Some m -> _container this = Some el ->
      exists this' log,
        _reset this = OK tt this' log
        /\ _layers this' = _layers this
        /\ forall id, calls cb_reset id log
                      = match registered this id with Some _ => 1%nat | None => 0%nat end)
  /\ (forall type ev a this' log,
        notify type ev this = OK a this' log -> _layers this' = _layers this)
  /\ (forall created a this' log,
        onAdd created this = OK a this' log -> _layers this' = _layers this).
Proof.
  split; [|split; [|split; [|split; [|split]]]].
  - intros opts lastId.
    destruct (initialize_run opts lastId this) as (n & this' & Hrun & Hl & _).
    exists n, this'. split; [exact Hrun|]. intros L HL. rewrite Hl, HL. reflexivity.
  - eexists. split; [apply _onZoomEnd_run|].
    intros id. rewrite calls_dispatch. reflexivity.
  - eexists. split; [apply _updatePaths_run|].
    intros id. rewrite calls_dispatch. reflexivity.
  - intros m el Hm Hel. eexists _, _. split; [exact (_reset_run this m el Hm Hel)|].
    split; [reflexivity|]. intros id.
    rewrite calls_setTransform_cons.
    exact (calls_dispatch cb_reset cb_reset (updated m this) id).
  - intros type ev a this' log. apply preserves_notify.
  - intros created a this' log. apply preserves_onAdd.
Qed.

Lemma registry_only_iterated_witness :
  _map attached = Some sampleMap /\ _container attached = Some 1%N /\
  exists this' log,
    _reset attached = OK tt this' log
    /\ _layers this' = _layers attached
    /\ calls cb_reset 12 log = 1%nat.
Proof.
  split; [reflexivity|]. split; [reflexivity|].
  destruct (registry_only_iterated attached) as (_ & _ & _ & Hreset & _).
  destruct (Hreset sampleMap 1%N eq_refl eq_refl) as (this' & log & Hrun & Hl & Hcalls).
  exists this', log. split; [exact Hrun|]. split; [exact Hl|]. exact (Hcalls 12%N).
Defined.

(** ** Construction *)

Lemma non_negative_number_spec (v : JSValue) (p : Q) :
  non_negative_number v = Some p <-> v = js_number p /\ 0 <= p.
Proof.
  destruct v as [| |b|q| |str]; simpl.
  1-3, 5-6: split; [intros H; discriminate H | intros [H _]; discriminate H].
  destruct (Qle_bool 0 q) eqn:E.
  - apply Qle_bool_iff in E. split.
    + intros H. injection H as <-. split; [reflexivity | exact E].
    + intros [H _]. injection H as <-. reflexivity.
  - split; [intros H; discriminate H|].
    intros [H Hle]. injection H as <-.
    apply Qle_bool_iff in Hle. congruence.
Qed.

(** C9: the padding option defaults to 0.1; a supplied padding value is
    accepted, that is, becomes the value of the option, if and only if it is a
    non-negative number, and when it is not the default stays; the value of
    the option is the one the bounds and the transform are computed with. *)
Theorem padding_accepted_iff_non_negative_number (lastId : N) :
  (forall opts,
     opts = None \/ opts = Some {| user_padding := None |} ->
     exists n this',
       initialize opts lastId Renderer_prototype = OK n this' []
       /\ padding (options this') = 1 # 10)
  /\ (forall v, exists n this',
        initialize (Some {| user_padding := Some v |}) lastId Renderer_prototype
          = OK n this' []
        /\ ((exists q, v = js_number q /\ padding (options this') = q)
            <-> (exists q, v = js_number q /\ 0 <= q))
        /\ ((forall q, v = js_number q -> ~ 0 <= q) ->
            padding (options this') = 1 # 10))
  /\ (forall opts, exists n this',
        initialize opts lastId Renderer_prototype = OK n this' []
        /\ forall r m el center zoom,
             options r = options this' -> _map r = Some m -> _container r = Some el ->
             let p := padding (options this') in
             let min := Point.round (containerPointToLayerPoint m
                                       (Point.multiplyBy (getSize m) (- p))) in
             (exists r', _update r = OK tt r' []
                /\ _bounds r' = Some (Bounds.new min
                     (Point.round (Point.add min (Point.multiplyBy (getSize m) (1 + p * 2))))))
             /\ _updateTransform center zoom r
                = OK tt r
                   [(view r,
                     setTransform el
                       (Point.subtract
                          (Point.add
                             (Point.multiplyBy
                                (Point.multiplyBy (getSize m) ((1 # 2) + p))
                                (- getZoomScale m zoom (_zoom r)))
                             (project m (_center r) zoom))
                          (_getNewPixelOrigin m center zoom))
                       (getZoomScale m zoom (_zoom r)))]).
Proof.
  split; [|split].
  - intros opts Hopts.
    destruct (initialize_run opts lastId Renderer_prototype) as (n & this' & Hrun & _ & Hp).
    exists n, this'. split; [exact Hrun|].
    rewrite Hp. destruct Hopts as [-> | ->]; reflexivity.
  - intros v.
    destruct (initialize_run (Some {| user_padding := Some v |}) lastId Renderer_prototype)
      as (n & this' & Hrun & _ & Hp).
    exists n, this'. split; [exact Hrun|].
    cbn [user_padding] in Hp.
    destruct (non_negative_number v) as [p|] eqn:E; cbn [default] in Hp.
    + apply non_negative_number_spec in E as [-> Hle]. split.
      * split; intros _; exists p; (split; [reflexivity | assumption]).
      * intros Hneg. destruct (Hneg p eq_refl Hle).
    + assert (Hno : forall q, v = js_number q -> ~ 0 <= q).
      { intros q -> Hle.
        assert (Hs : non_negative_number (js_number q) = Some q)
          by (apply non_negative_number_spec; split; [reflexivity | exact Hle]).
        congruence. }
      split; [|intros _; exact Hp].
      split.
      * intros (q & -> & Hq). exfalso. apply (Hno q eq_refl).
        rewrite <- Hq, Hp. unfold Qle; simpl; lia.
      * intros (q & -> & Hq). destruct (Hno q eq_refl Hq).
  - intros opts.
    destruct (initialize_run opts lastId Renderer_prototype) as (n & this' & Hrun & _ & _).
    exists n, this'. split; [exact Hrun|].
    intros r m el center zoom Ho Hm Hel p min. subst p min. rewrite <- Ho. split.
    + exists (updated m r). split; [exact (_update_run r m Hm) | reflexivity].
    + exact (_updateTransform_run r m el center zoom Hm Hel).
Qed.

Lemma padding_accepted_iff_non_negative_number_witness :
  (exists n this',
     initialize (Some {| user_padding := Some (js_number (1 # 4)) |}) 0 Renderer_prototype
       = OK n this' []
     /\ padding (options this') = 1 # 4)
  /\ (exists n this',
        initialize (Some {| user_padding := Some (js_number (- (1 # 2))) |}) 0
          Renderer_prototype
          = OK n this' []
        /\ padding (options this') = 1 # 10).
Proof.
  destruct (padding_accepted_iff_non_negative_number 0) as (_ & Hv & _).
  split.
  - destruct (Hv (js_number (1 # 4))) as (n & this' & Hrun & [_ Hacc] & _).
    destruct Hacc as (q & Hq & Hp).
    { exists (1 # 4). split; [reflexivity | unfold Qle; simpl; lia]. }
    injection Hq as <-. exists n, this'. split; [exact Hrun | exact Hp].
  - destruct (Hv (js_number (- (1 # 2)))) as (n & this' & Hrun & _ & Hrej).
    exists n, this'. split; [exact Hrun|]. apply Hrej.
    intros q [= <-] Hle. apply Hle. reflexivity.
Defined.

(** ** Pan settled *)

(** C3 as stated fails: on [moveend] no shape receives [_project] and no
    transform is applied, although shapes are registered. *)
Lemma moveend_projects_nothing :
  ~ (exists this' log,
       notify "moveend" noEventData attached = OK tt this' log
       /\ (forall id layer, registered attached id = Some layer ->
           calls cb_project id log = 1%nat)
       /\ existsb is_setTransform log = true).
Proof.
  intros (this' & log & Hrun & Hcalls & _).
  rewrite notify_moveend, (_update_run attached sampleMap eq_refl) in Hrun.
  injection Hrun as _ <-.
  specialize (Hcalls 9%N shapeA eq_refl). discriminate Hcalls.
Qed.

(** C3, amended: handling [moveend] recomputes the bounds and refreshes the
    cached center and zoom, and does nothing else: no shape callback is
    called, no transform is applied, the registry and the container are left
    as they were. *)
Theorem moveend_recomputes_bounds_only (this : Renderer) (m : Map) (ev : EventData) :
  _map this = Some m ->
  let p := padding (options this) in
  let min := Point.round (containerPointToLayerPoint m (Point.multiplyBy (getSize m) (- p))) in
  exists this',
    notify "moveend" ev this = OK tt this' []
    /\ _bounds this' = Some (Bounds.new min
         (Point.round (Point.add min (Point.multiplyBy (getSize m) (1 + p * 2)))))
    /\ _center this' = Some (getCenter m)
    /\ _zoom this' = Some (getZoom m)
    /\ _layers this' = _layers this
    /\ _container this' = _container this
    /\ options this' = options this.
Proof.
  intros Hm p min. exists (updated m this).
  split; [rewrite notify_moveend; exact (_update_run this m Hm)|].
  repeat split; reflexivity.
Qed.

Lemma moveend_recomputes_bounds_only_witness :
  _map attached = Some sampleMap /\
  exists this',
    notify "moveend" noEventData attached = OK tt this' []
    /\ _center this' = Some {| lat := 0; lng := 0 |}
    /\ _zoom this' = Some 5.
Proof.
  split; [reflexivity|].
  destruct (moveend_recomputes_bounds_only attached sampleMap noEventData eq_refl)
    as (this' & Hrun & _ & Hc & Hz & _).
  exists this'. split; [exact Hrun|]. split; [exact Hc | exact Hz].
Defined.

(** ** Attach *)

Lemma tell_run e this : tell e this = OK tt this [(view this, e)].
Proof. reflexivity. Qed.

Lemma onAdd_run_new (this : Renderer) (m : Map) (created : Element) :
  _map this = Some m ->
  _container this = None ->
  let this1 := set_container (Some created) this in
  onAdd created this
  = OK tt (updated m this1)
      [(view this, classList_add created "leaflet-zoom-animated");
       (view this, appendChild created);
       (view (updated m this1), on "update" h_updatePaths)].
Proof.
  intros Hm Hc this1. unfold onAdd.
  run_bind (get_run this). rewrite Hc.
  assert (Hm1 : _map this1 = Some m) by exact Hm.
  eapply bind_OK.
  - unfold _initContainer, bind, modify, get, deref, tell. simpl. reflexivity.
  - cbv beta. run_bind (get_run this1). unfold deref at 1. rewrite Hm1.
    unfold bind at 1, ret at 1.
    unfold deref at 1; simpl (_container this1). unfold bind at 1, ret at 1.
    unfold bind at 1. rewrite tell_run.
    unfold bind at 1. rewrite (_update_run this1 m Hm1). rewrite tell_run.
    reflexivity.
  - reflexivity.
Qed.

Lemma onAdd_run_kept (this : Renderer) (m : Map) (created el : Element) :
  _map this = Some m ->
  _container this = Some el ->
  onAdd created this
  = OK tt (updated m this)
      [(view this, appendChild el);
       (view (updated m this), on "update" h_updatePaths)].
Proof.
  intros Hm Hc. unfold onAdd.
  run_bind (get_run this). rewrite Hc.
  unfold bind at 1, ret at 1.
  unfold bind at 1, get at 1. rewrite Hm, Hc. unfold deref.
  unfold bind at 1, ret at 1. unfold bind at 1, ret at 1.
  unfold bind at 1. rewrite tell_run.
  unfold bind at 1. rewrite (_update_run this m Hm). rewrite tell_run.
  reflexivity.
Qed.

(** C7 as stated fails: attaching applies no transform. *)
Lemma attach_applies_no_transform :
  ~ (exists this' log,
       onAdd 1%N unattached = OK tt this' log
       /\ existsb is_setTransform log = true).
Proof.
  intros (this' & log & Hrun & Ht).
  rewrite (onAdd_run_new unattached sampleMap 1%N eq_refl eq_refl) in Hrun.
  injection Hrun as _ <-. discriminate Ht.
Qed.

(** C7, amended: on attach the core creates the container when there is
    none, appends it to the pane, recomputes the bounds (with center and zoom)
    and then subscribes [_updatePaths] to the [update] notification, in that
    order: the subscription is the last entry of the log and is made with the
    recomputed cache in place.  No transform is applied. *)
Theorem attach_recomputes_bounds_then_subscribes
    (this : Renderer) (m : Map) (created : Element) :
  _map this = Some m ->
  exists this' before,
    onAdd created this = OK tt this' (before ++ [(view this', on "update" h_updatePaths)])
    /\ before
       = match _container this with
         | Some el => [(view this, appendChild el)]
         | None => [(view this, classList_add created "leaflet-zoom-animated");
                    (view this, appendChild created)]
         end
    /\ _container this' = Some (default created (_container this))
    /\ view this' = view (updated m this)
    /\ _layers this' = _layers this
    /\ existsb is_setTransform (before ++ [(view this', on "update" h_updatePaths)]) = false
    /\ existsb is_callback (before ++ [(view this', on "update" h_updatePaths)]) = false.
Proof.
  intros Hm. destruct (_container this) as [el|] eqn:Hc.
  - exists (updated m this), [(view this, appendChild el)].
    split; [exact (onAdd_run_kept this m created el Hm Hc)|].
    split; [reflexivity|]. split; [exact Hc|]. repeat split; reflexivity.
  - exists (updated m (set_container (Some created) this)),
           [(view this, classList_add created "leaflet-zoom-animated");
            (view this, appendChild created)].
    split; [exact (onAdd_run_new this m created Hm Hc)|].
    repeat split; reflexivity.
Qed.

Lemma attach_recomputes_bounds_then_subscribes_witness :
  _map unattached = Some sampleMap /\
  exists this' before,
    onAdd 1%N unattached = OK tt this' (before ++ [(view this', on "update" h_updatePaths)])
    /\ _container this' = Some 1%N
    /\ view this' = view settled.
Proof.
  split; [reflexivity|].
  destruct (attach_recomputes_bounds_then_subscribes unattached sampleMap 1%N eq_refl)
    as (this' & before & Hrun & _ & Hc & Hv & _).
  exists this', before. split; [exact Hrun|]. split; [exact Hc | exact Hv].
Defined.

(** ** The padded bounds *)

(** Reduce the projections of points and bounds built by the geometry
    operations, and nothing else. *)
Ltac geometry :=
  cbn [Bounds.min Bounds.max Bounds.new Point.x Point.y
       Point.round Point.add Point.subtract Point.multiplyBy].

Example odd_bounds :
  _bounds (updated oddMap odd)
  = Some (Bounds.mk (Point.mk (-200) (-150)) (Point.mk 1002 750)).
Proof. reflexivity. Qed.

(** C2 as stated fails: the bounds of [odd] span -200..1002 horizontally, so
    their center is at x = 401, while the center of the viewport is at
    x = 400.5. *)
Lemma bounds_not_centered :
  ~ (exists this' b,
       _update odd = OK tt this' []
       /\ _bounds this' = Some b
       /\ Bounds.getCenter b
          =p= containerPointToLayerPoint oddMap (Point.multiplyBy (getSize oddMap) (1 # 2))).
Proof.
  intros (this' & b & Hrun & Hb & Hx & _).
  rewrite (_update_run odd oddMap eq_refl) in Hrun.
  injection Hrun as <-. injection Hb as <-.
  vm_compute in Hx. discriminate Hx.
Qed.

(** C2, amended: for every viewport size [S] (non-negative on both axes) and
    padding [p >= 0], [_update] caches bounds whose min corner is
    [containerPointToLayerPoint(S * -p)] rounded and whose width is
    [round(S.width * (1 + 2p))] within one pixel; when
    [containerPointToLayerPoint] is a translation, their center is within one
    pixel of the viewport's center on each axis; and the cached center and
    zoom are the viewport's current ones. *)
Theorem update_pads_viewport (this : Renderer) (m : Map) :
  _map this = Some m ->
  0 <= padding (options this) ->
  0 <= Point.x (getSize m) ->
  0 <= Point.y (getSize m) ->
  let p := padding (options this) in
  let S := getSize m in
  exists this' b,
    _update this = OK tt this' []
    /\ _bounds this' = Some b
    /\ Bounds.min b =p= Point.round (containerPointToLayerPoint m (Point.multiplyBy S (- p)))
    /\ Qabs (Bounds.width b - Math_round (Point.x S * (1 + 2 * p))) <= 1
    /\ Qabs (Bounds.height b - Math_round (Point.y S * (1 + 2 * p))) <= 1
    /\ (forall panePos,
          (forall q, containerPointToLayerPoint m q =p= Point.subtract q panePos) ->
          let c := containerPointToLayerPoint m (Point.multiplyBy S (1 # 2)) in
          Qabs (Point.x (Bounds.getCenter b) - Point.x c) <= 1
          /\ Qabs (Point.y (Bounds.getCenter b) - Point.y c) <= 1)
    /\ _center this' = Some (getCenter m)
    /\ _zoom this' = Some (getZoom m).
Proof.
  intros Hm Hp Hx Hy p S.
  set (corner := containerPointToLayerPoint m (Point.multiplyBy S (- p))).
  pose proof (padded_axis (Point.x S) p (Point.x corner) Hx Hp) as (Hminx & Hmaxx & Hwx).
  pose proof (padded_axis (Point.y S) p (Point.y corner) Hy Hp) as (Hminy & Hmaxy & Hwy).
  pose proof (padded_axis_center (Point.x S) p (Point.x corner)) as Hcenterx.
  pose proof (padded_axis_center (Point.y S) p (Point.y corner)) as Hcentery.
  assert (Ewx : Point.x S * (1 + p * 2) == Point.x S * (1 + 2 * p)) by ring.
  assert (Ewy : Point.y S * (1 + p * 2) == Point.y S * (1 + 2 * p)) by ring.
  subst corner S p. cbv zeta in Hcenterx, Hcentery.
  eexists (updated m this), _.
  split; [exact (_update_run this m Hm)|]. split; [reflexivity|].
  split; [split; geometry; [exact Hminx | exact Hminy]|].
  split.
  { unfold Bounds.width. geometry. rewrite Hminx, Hmaxx, Hwx.
    rewrite (Math_round_comp _ _ Ewx). apply Qabs_Qle_condition. split; lra. }
  split.
  { unfold Bounds.height. geometry. rewrite Hminy, Hmaxy, Hwy.
    rewrite (Math_round_comp _ _ Ewy). apply Qabs_Qle_condition. split; lra. }
  split; [|split; reflexivity].
  intros panePos Htr c.
  destruct (Htr (Point.multiplyBy (getSize m) (- padding (options this)))) as [Hcx Hcy].
  destruct (Htr (Point.multiplyBy (getSize m) (1 # 2))) as [Htx Hty]. fold c in Htx, Hty.
  cbn [Point.x Point.y Point.subtract Point.multiplyBy] in Hcx, Hcy, Htx, Hty.
  assert (Hcx' : Point.x c == Point.x (containerPointToLayerPoint m
                     (Point.multiplyBy (getSize m) (- padding (options this))))
                   + Point.x (getSize m) * (1 + padding (options this) * 2) * (1 # 2))
    by (rewrite Htx, Hcx; ring).
  assert (Hcy' : Point.y c == Point.y (containerPointToLayerPoint m
                     (Point.multiplyBy (getSize m) (- padding (options this))))
                   + Point.y (getSize m) * (1 + padding (options this) * 2) * (1 # 2))
    by (rewrite Hty, Hcy; ring).
  specialize (Hcenterx (Point.x c) Hx Hp Hcx').
  specialize (Hcentery (Point.y c) Hy Hp Hcy').
  apply Qabs_Qle_condition in Hcenterx. apply Qabs_Qle_condition in Hcentery.
  split; unfold Bounds.getCenter; geometry; apply Qabs_Qle_condition; split; lra.
Qed.

Lemma update_pads_viewport_witness :
  _map attached = Some sampleMap
  /\ 0 <= padding (options attached)
  /\ 0 <= Point.x (getSize sampleMap)
  /\ 0 <= Point.y (getSize sampleMap)
  /\ exists this' b,
       _update attached = OK tt this' []
       /\ _bounds this' = Some b
       /\ Qabs (Bounds.width b - Math_round (800 * (1 + 2 * (1 # 4)))) <= 1
       /\ _zoom this' = Some 5.
Proof.
  assert (H1 : 0 <= padding (options attached)) by (unfold Qle; simpl; lia).
  assert (H2 : 0 <= Point.x (getSize sampleMap)) by (unfold Qle; simpl; lia).
  assert (H3 : 0 <= Point.y (getSize sampleMap)) by (unfold Qle; simpl; lia).
  split; [reflexivity|]. split; [exact H1|]. split; [exact H2|]. split; [exact H3|].
  destruct (update_pads_viewport attached sampleMap eq_refl H1 H2 H3)
    as (this' & b & Hrun & Hb & _ & Hw & _ & _ & _ & Hz).
  exists this', b. split; [exact Hrun|]. split; [exact Hb|]. split; [exact Hw | exact Hz].
Defined.

Example sampleMap_bounds :
  _bounds settled
  = Some (Bounds.mk (Point.mk (-200) (-150)) (Point.mk 1000 750)).
Proof. reflexivity. Qed.

(** The scenario of the specification: 800 x 600, padding 0.1. *)
Example default_padding_bounds :
  _bounds (updated sampleMap (set_options {| padding := 1 # 10 |} attached))
  = Some (Bounds.mk (Point.mk (-80) (-60)) (Point.mk 880 660)).
Proof. reflexivity. Qed.

(** ** The transform at the cached view *)

Lemma flatMap_getZoomScale_same size center zoom panePos z :
  getZoomScale (flatMap size center zoom panePos) z z == 1.
Proof. simpl. rewrite Z.sub_diag. reflexivity. Qed.

(** C5 as stated fails: on [sampleMap], whose [getZoomScale(z, z)] is 1, the
    transform of [settled] at its own cached center and zoom translates by
    (-200, -150), the top-left corner of the padded bounds. *)
Lemma cached_view_offset_not_zero :
  (forall z, getZoomScale sampleMap z z == 1)
  /\ ~ (exists offset scale,
          _updateTransform (_center settled) (_zoom settled) settled
            = OK tt settled [(view settled, setTransform 1%N offset scale)]
          /\ offset =p= Point.mk 0 0
          /\ scale == 1).
Proof.
  split; [intros z; apply flatMap_getZoomScale_same|].
  intros (offset & scale & Hrun & [Hx _] & _).
  rewrite (_updateTransform_run settled sampleMap 1%N _ _ eq_refl eq_refl) in Hrun.
  injection Hrun as <- _.
  vm_compute in Hx. discriminate Hx.
Qed.

(** C5, amended: with target center and zoom equal to the cached ones, and a
    viewport whose [getZoomScale(z, z)] is 1, the transform has unit scale
    and translates by
    [project(center, zoom) - size * (0.5 + padding) - newPixelOrigin(center, zoom)],
    which is zero exactly when the viewport's new pixel origin is the
    projected center minus the padded half extent. *)
Theorem cached_view_transform (this : Renderer) (m : Map) (el : Element) :
  _map this = Some m ->
  _container this = Some el ->
  getZoomScale m (_zoom this) (_zoom this) == 1 ->
  let viewHalfExtent := Point.multiplyBy (getSize m) ((1 # 2) + padding (options this)) in
  let centerPixel := project m (_center this) (_zoom this) in
  let newPixelOrigin := _getNewPixelOrigin m (_center this) (_zoom this) in
  exists offset scale,
    _updateTransform (_center this) (_zoom this) this
      = OK tt this [(view this, setTransform el offset scale)]
    /\ scale == 1
    /\ offset =p= Point.subtract (Point.subtract centerPixel viewHalfExtent) newPixelOrigin
    /\ (offset =p= Point.mk 0 0
        <-> newPixelOrigin =p= Point.subtract centerPixel viewHalfExtent).
Proof.
  intros Hm Hel Hs viewHalfExtent centerPixel newPixelOrigin.
  exists (topLeftOffset_of m this (_center this) (_zoom this)),
         (scale_of m this (_zoom this)).
  split; [exact (_updateTransform_run this m el _ _ Hm Hel)|].
  split; [exact Hs|].
  assert (Hoff : topLeftOffset_of m this (_center this) (_zoom this)
                 =p= Point.subtract (Point.subtract centerPixel viewHalfExtent) newPixelOrigin).
  { unfold topLeftOffset_of, scale_of, Point.eq; simpl. rewrite Hs.
    fold centerPixel newPixelOrigin. split; ring. }
  split; [exact Hoff|].
  destruct Hoff as [Ex Ey]. unfold Point.eq. rewrite Ex, Ey. simpl.
  split; intros [H1 H2]; split; lra.
Qed.

Lemma cached_view_transform_witness :
  _map settled = Some sampleMap
  /\ _container settled = Some 1%N
  /\ getZoomScale sampleMap (_zoom settled) (_zoom settled) == 1
  /\ exists offset scale,
       _updateTransform (_center settled) (_zoom settled) settled
         = OK tt settled [(view settled, setTransform 1%N offset scale)]
       /\ scale == 1.
Proof.
  assert (H : getZoomScale sampleMap (_zoom settled) (_zoom settled) == 1) by reflexivity.
  split; [reflexivity|]. split; [reflexivity|]. split; [exact H|].
  destruct (cached_view_transform settled sampleMap 1%N eq_refl eq_refl H)
    as (offset & scale & Hrun & Hs & _).
  exists offset, scale. split; [exact Hrun | exact Hs].
Defined.

(** * Further properties of the class *)

(** ** More on running sequences *)

Lemma bind_OK_Throw {A B} (m : M A) (k : A -> M B) this a this1 log1 :
  m this = OK a this1 log1 -> k a this1 = Throw -> bind m k this = Throw.
Proof. intros H1 H2. unfold bind. rewrite H1, H2. reflexivity. Qed.

Lemma _updateTransform_Throw_map this center zoom :
  _map this = None -> _updateTransform center zoom this = Throw.
Proof. intros Hm. unfold _updateTransform, bind, get, deref. rewrite Hm. reflexivity. Qed.

Lemma _updateTransform_Throw_container this m center zoom :
  _map this = Some m -> _container this = None ->
  _updateTransform center zoom this = Throw.
Proof.
  intros Hm Hc. unfold _updateTransform, DomUtil_setTransform, bind, get, deref.
  rewrite Hm. simpl. rewrite Hc. reflexivity.
Qed.

Lemma _onZoom_unfold this m :
  _map this = Some m ->
  _onZoom this = _updateTransform (Some (getCenter m)) (Some (getZoom m)) this.
Proof.
  intros Hm. unfold _onZoom, bind at 1 2, get at 1, deref at 1. rewrite Hm.
  unfold ret at 1.
  destruct (_updateTransform (Some (getCenter m)) (Some (getZoom m)) this);
    [rewrite !app_nil_l|]; reflexivity.
Qed.

Lemma _onZoom_Throw this : _map this = None -> _onZoom this = Throw.
Proof. intros Hm. unfold _onZoom, bind, get, deref. rewrite Hm. reflexivity. Qed.

Lemma _reset_Throw_map this : _map this = None -> _reset this = Throw.
Proof. intros Hm. unfold _reset. apply bind_Throw, _update_Throw, Hm. Qed.

Lemma _reset_Throw_container this m :
  _map this = Some m -> _container this = None -> _reset this = Throw.
Proof.
  intros Hm Hc. unfold _reset.
  eapply bind_OK_Throw; [exact (_update_run this m Hm)|]. cbv beta.
  eapply bind_OK_Throw; [apply get_run|]. cbv beta.
  apply bind_Throw. exact (_updateTransform_Throw_container (updated m this) m _ _ Hm Hc).
Qed.

Lemma onAdd_Throw this created : _map this = None -> onAdd created this = Throw.
Proof.
  intros Hm. unfold onAdd, _initContainer.
  destruct (_container this) as [el|] eqn:Hc;
    unfold bind, get, modify, deref, tell, ret; rewrite Hc; simpl; rewrite Hm; reflexivity.
Qed.

Lemma entries_nil (this : Renderer) :
  (forall id, registered this id = None) -> entries (_layers this) = [].
Proof.
  intros H. destruct (entries (_layers this)) as [|[id l] es] eqn:E; [reflexivity|].
  assert (Hin : (id, l) ∈ entries (_layers this)) by (rewrite E; left).
  apply entries_registered in Hin. rewrite H in Hin. discriminate Hin.
Qed.

(** ** Notifications *)

(** X1: a [zoom] notification is an animation frame that carries the map's
    current center and zoom: it runs the same transform computation, whether
    that returns or throws. *)
Theorem zoom_is_a_frame_at_the_current_view (this : Renderer) (m : Map) (ev : EventData) :
  _map this = Some m ->
  notify "zoom" ev this
  = _onAnimZoom {| ev_center := Some (getCenter m); ev_zoom := Some (getZoom m) |} this
  /\ forall el, _container this = Some el ->
       notify "zoom" ev this
       = OK tt this
           [(view this,
             setTransform el
               (topLeftOffset_of m this (Some (getCenter m)) (Some (getZoom m)))
               (scale_of m this (Some (getZoom m))))].
Proof.
  intros Hm. rewrite notify_zoom, (_onZoom_unfold this m Hm). split; [reflexivity|].
  intros el Hel. exact (_updateTransform_run this m el _ _ Hm Hel).
Qed.

Lemma zoom_is_a_frame_at_the_current_view_witness :
  _map settled = Some sampleMap
  /\ notify "zoom" noEventData settled
     = _onAnimZoom {| ev_center := Some {| lat := 0; lng := 0 |}; ev_zoom := Some 5 |} settled.
Proof.
  split; [reflexivity|].
  exact (proj1 (zoom_is_a_frame_at_the_current_view settled sampleMap noEventData eq_refl)).
Defined.

(** X2: on a renderer that has no map, every method that reads the viewport
    throws, and so do the notifications bound to them; the two loops that
    only walk the registry still return. *)
Theorem without_a_map_only_the_loops_return (this : Renderer) :
  _map this = None ->
  _update this = Throw
  /\ (forall center zoom, _updateTransform center zoom this = Throw)
  /\ _onZoom this = Throw
  /\ (forall ev, _onAnimZoom ev this = Throw)
  /\ _reset this = Throw
  /\ (forall created, onAdd created this = Throw)
  /\ (forall ev, notify "viewreset" ev this = Throw
                 /\ notify "zoom" ev this = Throw
                 /\ notify "moveend" ev this = Throw)
  /\ (exists log, _onZoomEnd this = OK tt this log)
  /\ (exists log, _updatePaths this = OK tt this log).
Proof.
  intros Hm.
  split; [exact (_update_Throw this Hm)|].
  split; [intros c z; exact (_updateTransform_Throw_map this c z Hm)|].
  split; [exact (_onZoom_Throw this Hm)|].
  split; [intros ev; exact (_updateTransform_Throw_map this _ _ Hm)|].
  split; [exact (_reset_Throw_map this Hm)|].
  split; [intros created; exact (onAdd_Throw this created Hm)|].
  split.
  { intros ev. rewrite notify_viewreset, notify_zoom, notify_moveend.
    split; [exact (_reset_Throw_map this Hm)|].
    split; [exact (_onZoom_Throw this Hm) | exact (_update_Throw this Hm)]. }
  split; eexists; [apply _onZoomEnd_run | apply _updatePaths_run].
Qed.

Lemma without_a_map_only_the_loops_return_witness :
  _map Renderer_prototype = None
  /\ _reset Renderer_prototype = Throw
  /\ onAdd 1%N Renderer_prototype = Throw.
Proof.
  split; [reflexivity|].
  destruct (without_a_map_only_the_loops_return Renderer_prototype eq_refl)
    as (_ & _ & _ & _ & Hr & Ha & _).
  split; [exact Hr | exact (Ha 1%N)].
Defined.

(** X3: with no shape registered (the registry empty or not created yet),
    [_onZoomEnd] and [_updatePaths] do nothing at all, and a [viewreset] on an
    attached renderer only recomputes the cache and applies the transform. *)
Theorem nothing_registered_nothing_called (this : Renderer) :
  (forall id, registered this id = None) ->
  _onZoomEnd this = OK tt this []
  /\ _updatePaths this = OK tt this []
  /\ forall m el ev, _map this = Some m -> _container this = Some el ->
       let this' := updated m this in
       notify "viewreset" ev this
       = OK tt this'
           [(view this',
             setTransform el (topLeftOffset_of m this' (_center this') (_zoom this'))
                             (scale_of m this' (_zoom this')))].
Proof.
  intros H. pose proof (entries_nil this H) as E.
  split; [rewrite _onZoomEnd_run, E; reflexivity|].
  split; [rewrite _updatePaths_run, E; reflexivity|].
  intros m el ev Hm Hel this'.
  rewrite notify_viewreset, (_reset_run this m el Hm Hel), E. reflexivity.
Qed.

Lemma nothing_registered_nothing_called_witness :
  (forall id, registered Renderer_prototype id = None)
  /\ _onZoomEnd Renderer_prototype = OK tt Renderer_prototype []
  /\ _updatePaths Renderer_prototype = OK tt Renderer_prototype [].
Proof.
  assert (H : forall id, registered Renderer_prototype id = None) by (intros id; reflexivity).
  split; [exact H|].
  destruct (nothing_registered_nothing_called Renderer_prototype H) as (H1 & H2 & _).
  split; [exact H1 | exact H2].
Defined.

(** X6: a notification of a kind [getEvents] does not register is ignored:
    the renderer is returned as it was and nothing is logged.  The kinds
    registered are [viewreset], [zoom], [moveend], [zoomend], and [zoomanim]
    only when the map is zoom-animated. *)
Theorem unregistered_notifications_are_ignored
    (this : Renderer) (type : string) (ev : EventData) :
  type <> "viewreset" -> type <> "zoom" -> type <> "moveend" -> type <> "zoomend" ->
  (type = "zoomanim" -> _zoomAnimated this = false) ->
  getEvents this !! type = None
  /\ notify type ev this = OK tt this [].
Proof.
  intros H1 H2 H3 H4 Hz.
  assert (Hbase : ({[ "viewreset" := h_reset; "zoom" := h_onZoom;
                      "moveend" := h_update; "zoomend" := h_onZoomEnd ]}
                    : gmap string Handler) !! type = None).
  { rewrite !lookup_insert_ne by congruence. apply lookup_singleton_ne. congruence. }
  assert (Hnone : getEvents this !! type = None).
  { unfold getEvents. destruct (_zoomAnimated this) eqn:Ez; [|exact Hbase].
    rewrite lookup_insert_ne; [exact Hbase|].
    intros <-. specialize (Hz eq_refl). discriminate Hz. }
  split; [exact Hnone|].
  unfold notify, bind, get. rewrite Hnone. reflexivity.
Qed.

Lemma unregistered_notifications_are_ignored_witness :
  _zoomAnimated odd = false
  /\ notify "zoomanim" {| ev_center := Some {| lat := 10; lng := 20 |}; ev_zoom := Some 6 |} odd
     = OK tt odd [].
Proof.
  split; [reflexivity|].
  refine (proj2 (unregistered_notifications_are_ignored odd "zoomanim" _ _ _ _ _ _));
    first [discriminate | intros _; reflexivity].
Defined.

(** ** The cache *)

(** X4: recomputing the bounds twice against the same viewport is the same
    as recomputing them once. *)
Theorem update_twice_is_update_once (this : Renderer) (m : Map) :
  _map this = Some m ->
  (_update ;; _update) this = _update this.
Proof.
  intros Hm. rewrite (_update_run this m Hm).
  eapply bind_OK; [exact (_update_run this m Hm) | cbv beta | reflexivity].
  exact (_update_run (updated m this) m Hm).
Qed.

Lemma update_twice_is_update_once_witness :
  _map attached = Some sampleMap
  /\ (_update ;; _update) attached = _update attached.
Proof.
  split; [reflexivity|].
  exact (update_twice_is_update_once attached sampleMap eq_refl).
Defined.

(** X5: a [viewreset] overwrites whatever was cached: two renderers with the
    same options, viewport, container and registry produce the same log and
    end with the same cache, whatever their caches held before. *)
Theorem viewreset_forgets_the_stale_cache
    (r1 r2 : Renderer) (m : Map) (el : Element) (ev : EventData) :
  _map r1 = Some m -> _map r2 = Some m ->
  _container r1 = Some el -> _container r2 = Some el ->
  options r1 = options r2 ->
  _layers r1 = _layers r2 ->
  exists r1' r2' log,
    notify "viewreset" ev r1 = OK tt r1' log
    /\ notify "viewreset" ev r2 = OK tt r2' log
    /\ view r1' = view r2'.
Proof.
  intros Hm1 Hm2 Hc1 Hc2 Ho Hl.
  rewrite !notify_viewreset.
  rewrite (_reset_run r1 m el Hm1 Hc1), (_reset_run r2 m el Hm2 Hc2).
  assert (Hv : view (updated m r1) = view (updated m r2)).
  { unfold updated, view; simpl. rewrite Ho. reflexivity. }
  eexists _, _, _. split; [reflexivity|]. split; [|exact Hv].
  unfold topLeftOffset_of, scale_of. simpl. rewrite Hv, Hl, Ho. reflexivity.
Qed.

Lemma viewreset_forgets_the_stale_cache_witness :
  _map attached = Some sampleMap /\ _map settled = Some sampleMap
  /\ _container attached = Some 1%N /\ _container settled = Some 1%N
  /\ exists r1' r2' log,
       notify "viewreset" noEventData attached = OK tt r1' log
       /\ notify "viewreset" noEventData settled = OK tt r2' log.
Proof.
  repeat (split; [reflexivity|]).
  destruct (viewreset_forgets_the_stale_cache attached settled sampleMap 1%N noEventData
              eq_refl eq_refl eq_refl eq_refl eq_refl eq_refl)
    as (r1' & r2' & log & H1 & H2 & _).
  exists r1', r2', log. split; [exact H1 | exact H2].
Defined.

(** ** Sequences of notifications *)

(** X7: animation frames do not build on each other: two frames in a row log
    the two transforms each frame logs on its own, both computed against the
    same cached snapshot, and leave the renderer as it was. *)
Theorem animation_frames_do_not_accumulate
    (this : Renderer) (m : Map) (el : Element) (ev1 ev2 : EventData) :
  _map this = Some m ->
  _container this = Some el ->
  exists e1 e2,
    _onAnimZoom ev1 this = OK tt this [e1]
    /\ _onAnimZoom ev2 this = OK tt this [e2]
    /\ (_onAnimZoom ev1 ;; _onAnimZoom ev2) this = OK tt this [e1; e2].
Proof.
  intros Hm Hel.
  pose proof (_updateTransform_run this m el (ev_center ev1) (ev_zoom ev1) Hm Hel) as H1.
  pose proof (_updateTransform_run this m el (ev_center ev2) (ev_zoom ev2) Hm Hel) as H2.
  eexists _, _. split; [exact H1|]. split; [exact H2|].
  eapply bind_OK; [exact H1 | exact H2 | reflexivity].
Qed.

Lemma animation_frames_do_not_accumulate_witness :
  _map settled = Some sampleMap /\ _container settled = Some 1%N
  /\ exists e1 e2,
       (_onAnimZoom {| ev_center := Some {| lat := 10; lng := 20 |}; ev_zoom := Some 6 |} ;;
        _onAnimZoom {| ev_center := Some {| lat := 10; lng := 20 |}; ev_zoom := Some 7 |})
         settled
       = OK tt settled [e1; e2].
Proof.
  split; [reflexivity|]. split; [reflexivity|].
  destruct (animation_frames_do_not_accumulate settled sampleMap 1%N
              {| ev_center := Some {| lat := 10; lng := 20 |}; ev_zoom := Some 6 |}
              {| ev_center := Some {| lat := 10; lng := 20 |}; ev_zoom := Some 7 |}
              eq_refl eq_refl)
    as (e1 & e2 & _ & _ & H).
  exists e1, e2. exact H.
Defined.

(** X8: a [viewreset] does what a [moveend] followed by a [zoom] and one
    [_reset] per registered shape do, throwing exactly when they throw. *)
Theorem viewreset_is_moveend_zoom_and_resets (this : Renderer) (ev : EventData) :
  notify "viewreset" ev this
  = (notify "moveend" ev ;;
     notify "zoom" ev ;;
     this' <- get ;;
     forEach (for_in (_layers this')) (invoke cb_reset)) this.
Proof.
  rewrite notify_viewreset.
  destruct (_map this) as [m|] eqn:Hm.
  - assert (Hmove : notify "moveend" ev this = OK tt (updated m this) [])
      by (rewrite notify_moveend; exact (_update_run this m Hm)).
    assert (Hm' : _map (updated m this) = Some m) by exact Hm.
    destruct (_container this) as [el|] eqn:Hc.
    + rewrite (_reset_run this m el Hm Hc). symmetry.
      assert (Hzoom : notify "zoom" ev (updated m this)
                      = OK tt (updated m this)
                          [(view (updated m this),
                            setTransform el
                              (topLeftOffset_of m (updated m this)
                                 (Some (getCenter m)) (Some (getZoom m)))
                              (scale_of m (updated m this) (Some (getZoom m))))]).
      { rewrite notify_zoom, (_onZoom_unfold _ m Hm').
        exact (_updateTransform_run (updated m this) m el _ _ Hm' Hc). }
      run_bind Hmove. run_bind Hzoom. run_bind (get_run (updated m this)).
      exact (dispatch cb_reset (updated m this)).
    + rewrite (_reset_Throw_container this m Hm Hc). symmetry.
      eapply bind_OK_Throw; [exact Hmove|]. cbv beta.
      apply bind_Throw. rewrite notify_zoom, (_onZoom_unfold _ m Hm').
      exact (_updateTransform_Throw_container (updated m this) m _ _ Hm' Hc).
  - rewrite (_reset_Throw_map this Hm). symmetry.
    apply bind_Throw. rewrite notify_moveend. exact (_update_Throw this Hm).
Qed.

(** ** Attach, again *)

(** X13: the container is created once: attaching a second time keeps the
    container of the first attach, whatever element the implementation would
    create, does not add the class again, and leaves the same cache. *)
Theorem second_attach_reuses_the_container
    (this : Renderer) (m : Map) (created again : Element) :
  _map this = Some m ->
  _container this = None ->
  exists this',
    (onAdd created ;; onAdd again) this
    = OK tt this'
        [(view this, classList_add created "leaflet-zoom-animated");
         (view this, appendChild created);
         (view this', on "update" h_updatePaths);
         (view this', appendChild created);
         (view this', on "update" h_updatePaths)]
    /\ _container this' = Some created
    /\ view this' = view (updated m this).
Proof.
  intros Hm Hc.
  set (this1 := updated m (set_container (Some created) this)).
  assert (Hm1 : _map this1 = Some m) by exact Hm.
  assert (Hc1 : _container this1 = Some created) by reflexivity.
  exists this1. split; [|split; reflexivity].
  eapply bind_OK; [exact (onAdd_run_new this m created Hm Hc) | cbv beta |].
  - exact (onAdd_run_kept this1 m again created Hm1 Hc1).
  - reflexivity.
Qed.

Lemma second_attach_reuses_the_container_witness :
  _map unattached = Some sampleMap /\ _container unattached = None
  /\ exists this' log,
       (onAdd 1%N ;; onAdd 2%N) unattached = OK tt this' log
       /\ _container this' = Some 1%N.
Proof.
  split; [reflexivity|]. split; [reflexivity|].
  destruct (second_attach_reuses_the_container unattached sampleMap 1%N 2%N eq_refl eq_refl)
    as (this' & Hrun & Hc & _).
  eexists this', _. split; [exact Hrun | exact Hc].
Defined.

(** ** More on rounding *)

Section MoreRounding.
Implicit Types (q a s p u : Q) (z w : Z).

Lemma Math_round_shift_Z z q : Math_round (inject_Z z + q) == inject_Z z + Math_round q.
Proof.
  unfold Math_round.
  assert (E : inject_Z z + q + (1 # 2) == inject_Z z + (q + (1 # 2))) by ring.
  rewrite (Qfloor_comp _ _ E), Qfloor_shift, inject_Z_plus. reflexivity.
Qed.

Lemma Math_round_0 : Math_round 0 == 0.
Proof. reflexivity. Qed.

(** Why extents are stated within one pixel: an error of up to half a pixel
    in the sum that is rounded (the source adds and multiplies in doubles)
    moves the rounded extent by at most one pixel. *)
Lemma Math_round_perturbed z (w e : Q) :
  Qabs e <= 1 # 2 ->
  Qabs (Math_round (inject_Z z + w + e) - inject_Z z - Math_round w) <= 1.
Proof.
  intros He. apply Qabs_Qle_condition in He.
  assert (E : inject_Z z + w + e == inject_Z z + (w + e)) by ring.
  rewrite (Math_round_comp _ _ E), Math_round_shift_Z.
  unfold Math_round.
  pose proof (Qfloor_le (w + e + (1 # 2))) as H1.
  pose proof (Qlt_floor (w + e + (1 # 2))) as H2.
  pose proof (Qfloor_le (w + (1 # 2))) as H3.
  pose proof (Qlt_floor (w + (1 # 2))) as H4.
  rewrite inject_Z_plus in H2, H4. change (inject_Z 1) with 1 in H2, H4.
  set (k1 := Qfloor (w + e + (1 # 2))) in *.
  set (k2 := Qfloor (w + (1 # 2))) in *.
  assert (Ha : (k1 - k2 < 2)%Z).
  { rewrite Zlt_Qlt. unfold Z.sub. rewrite inject_Z_plus, inject_Z_opp.
    change (inject_Z 2) with 2. lra. }
  assert (Hb : (k2 - k1 < 2)%Z).
  { rewrite Zlt_Qlt. unfold Z.sub. rewrite inject_Z_plus, inject_Z_opp.
    change (inject_Z 2) with 2. lra. }
  assert (Ha' : (k1 - k2 <= 1)%Z) by lia.
  assert (Hb' : (k2 - k1 <= 1)%Z) by lia.
  rewrite Zle_Qle in Ha', Hb'. unfold Z.sub in Ha', Hb'.
  rewrite inject_Z_plus, inject_Z_opp in Ha', Hb'. change (inject_Z 1) with 1 in Ha', Hb'.
  apply Qabs_Qle_condition. split; lra.
Qed.

Lemma Math_round_opp_nonpos u : 0 <= u -> Math_round (- u) <= 0.
Proof.
  intros Hu. unfold Math_round.
  pose proof (Qfloor_le (- u + (1 # 2))) as H.
  assert (Hk : (Qfloor (- u + (1 # 2)) < 1)%Z).
  { rewrite Zlt_Qlt. change (inject_Z 1) with 1. lra. }
  assert (Hk' : (Qfloor (- u + (1 # 2)) <= 0)%Z) by lia.
  rewrite Zle_Qle in Hk'. exact Hk'.
Qed.

(** Rounding the padding on one side and twice the padding across never
    loses a pixel. *)
Lemma Math_round_opp_double u : 0 <= u -> 0 <= Math_round (- u) + Math_round (2 * u).
Proof.
  intros Hu. unfold Math_round.
  pose proof (Qlt_floor (- u + (1 # 2))) as H1.
  pose proof (Qlt_floor (2 * u + (1 # 2))) as H2.
  rewrite inject_Z_plus in H1, H2. change (inject_Z 1) with 1 in H1, H2.
  assert (Hk : (-1 < Qfloor (- u + (1 # 2)) + Qfloor (2 * u + (1 # 2)))%Z).
  { rewrite Zlt_Qlt, inject_Z_plus. change (inject_Z (-1)) with (-1). lra. }
  assert (Hk' : (0 <= Qfloor (- u + (1 # 2)) + Qfloor (2 * u + (1 # 2)))%Z) by lia.
  rewrite Zle_Qle, inject_Z_plus in Hk'. exact Hk'.
Qed.

(** [padded_axis] needs the inflated size to be non-negative only. *)
Lemma padded_axis_inflated s p a :
  0 <= s * (1 + p * 2) ->
  let lo := Math_round a in
  let hi := Math_round (lo + s * (1 + p * 2)) in
  Math_min hi lo == lo
  /\ Math_max hi lo == hi
  /\ hi - lo == Math_round (s * (1 + p * 2)).
Proof.
  intros Hw lo hi.
  assert (Hhi : hi == lo + Math_round (s * (1 + p * 2)))
    by (unfold hi, lo; apply Math_round_shift).
  pose proof (Math_round_nonneg _ Hw) as Hr.
  assert (Hle : lo <= hi) by lra.
  split; [exact (Math_min_r lo hi Hle)|].
  split; [exact (Math_max_r lo hi Hle)|]. lra.
Qed.

(** One axis of the padded bounds covers the viewport when the size of the
    viewport and the offset of the map pane are whole pixels. *)
Lemma padded_axis_covers w z s p a :
  (0 <= w)%Z -> 0 <= p ->
  s == inject_Z w ->
  a == s * - p - inject_Z z ->
  let lo := Math_round a in
  let hi := Math_round (lo + s * (1 + p * 2)) in
  Math_min hi lo <= 0 - inject_Z z /\ s - inject_Z z <= Math_max hi lo.
Proof.
  intros Hw Hp Hs Ha lo hi.
  assert (Hw' : 0 <= inject_Z w) by (rewrite Zle_Qle in Hw; exact Hw).
  assert (Hs0 : 0 <= s) by lra.
  destruct (padded_axis s p a Hs0 Hp) as (Hmin & Hmax & Hd).
  fold lo in Hmin, Hmax, Hd. fold hi in Hmin, Hmax, Hd.
  assert (Hu : 0 <= s * p) by (apply Qmult_le_0_compat; assumption).
  assert (Hlo : lo == inject_Z (- z) + Math_round (- (s * p))).
  { unfold lo. rewrite <- Math_round_shift_Z. apply Math_round_comp.
    rewrite Ha, inject_Z_opp. ring. }
  assert (Hr : Math_round (s * (1 + p * 2)) == inject_Z w + Math_round (2 * (s * p))).
  { rewrite <- Math_round_shift_Z. apply Math_round_comp. rewrite <- Hs. ring. }
  pose proof (Math_round_opp_nonpos _ Hu) as H1.
  pose proof (Math_round_opp_double _ Hu) as H2.
  rewrite inject_Z_opp in Hlo.
  rewrite Hmin, Hmax. split; lra.
Qed.

Lemma Math_min_max_integers (a b : Z) :
  exists lo hi : Z,
    Math_min (inject_Z b) (inject_Z a) = inject_Z lo
    /\ Math_max (inject_Z b) (inject_Z a) = inject_Z hi
    /\ (lo <= hi)%Z.
Proof.
  unfold Math_min, Math_max.
  destruct (Qle_bool (inject_Z b) (inject_Z a)) eqn:E.
  - exists b, a. split; [reflexivity|]. split; [reflexivity|].
    apply Qle_bool_iff in E. rewrite Zle_Qle. exact E.
  - exists a, b. split; [reflexivity|]. split; [reflexivity|].
    destruct (Z.le_gt_cases b a) as [H|H]; [|lia].
    rewrite Zle_Qle in H. apply Qle_bool_iff in H. congruence.
Qed.
End MoreRounding.

(** ** The padded bounds, again *)

(** X11: whatever the viewport and the padding, the cached bounds have whole
    pixel coordinates, and their min corner is not beyond their max corner. *)
Theorem cached_bounds_are_whole_pixels (this : Renderer) (m : Map) :
  _map this = Some m ->
  exists this' (x0 y0 x1 y1 : Z),
    _update this = OK tt this' []
    /\ _bounds this'
       = Some (Bounds.mk (Point.mk (inject_Z x0) (inject_Z y0))
                         (Point.mk (inject_Z x1) (inject_Z y1)))
    /\ (x0 <= x1)%Z /\ (y0 <= y1)%Z.
Proof.
  intros Hm.
  set (p := padding (options this)).
  set (corner := containerPointToLayerPoint m (Point.multiplyBy (getSize m) (- p))).
  set (ax := Qfloor (Point.x corner + (1 # 2))).
  set (ay := Qfloor (Point.y corner + (1 # 2))).
  set (bx := Qfloor (inject_Z ax + Point.x (getSize m) * (1 + p * 2) + (1 # 2))).
  set (by_ := Qfloor (inject_Z ay + Point.y (getSize m) * (1 + p * 2) + (1 # 2))).
  destruct (Math_min_max_integers ax bx) as (x0 & x1 & Ex0 & Ex1 & Hx).
  destruct (Math_min_max_integers ay by_) as (y0 & y1 & Ey0 & Ey1 & Hy).
  exists (updated m this), x0, y0, x1, y1.
  split; [exact (_update_run this m Hm)|].
  split; [|split; assumption].
  unfold updated. cbn [_bounds set_zoom set_center set_bounds].
  unfold Bounds.new. geometry. unfold Math_round.
  fold p. fold corner. fold ax ay. fold bx by_.
  rewrite Ex0, Ex1, Ey0, Ey1. reflexivity.
Qed.

Lemma cached_bounds_are_whole_pixels_witness :
  _map odd = Some oddMap
  /\ exists this' (x0 y0 x1 y1 : Z),
       _update odd = OK tt this' []
       /\ _bounds this'
          = Some (Bounds.mk (Point.mk (inject_Z x0) (inject_Z y0))
                            (Point.mk (inject_Z x1) (inject_Z y1))).
Proof.
  split; [reflexivity|].
  destruct (cached_bounds_are_whole_pixels odd oddMap eq_refl)
    as (this' & x0 & y0 & x1 & y1 & Hrun & Hb & _).
  exists this', x0, y0, x1, y1. split; [exact Hrun | exact Hb].
Defined.

(** X10: when the viewport's size and the offset of the map pane are whole
    pixels, the padding is not negative and [containerPointToLayerPoint]
    translates by the pane offset, the cached bounds cover the whole
    viewport: rounding the corners never cuts into the visible area. *)
Theorem cached_bounds_cover_the_viewport
    (this : Renderer) (m : Map) (panePos : Point) (w h px py : Z) :
  _map this = Some m ->
  0 <= padding (options this) ->
  (0 <= w)%Z -> (0 <= h)%Z ->
  getSize m =p= Point.mk (inject_Z w) (inject_Z h) ->
  panePos =p= Point.mk (inject_Z px) (inject_Z py) ->
  (forall q, containerPointToLayerPoint m q =p= Point.subtract q panePos) ->
  exists this' b,
    _update this = OK tt this' []
    /\ _bounds this' = Some b
    /\ let topLeft := containerPointToLayerPoint m (Point.mk 0 0) in
       let bottomRight := containerPointToLayerPoint m (getSize m) in
       Point.x (Bounds.min b) <= Point.x topLeft
       /\ Point.y (Bounds.min b) <= Point.y topLeft
       /\ Point.x bottomRight <= Point.x (Bounds.max b)
       /\ Point.y bottomRight <= Point.y (Bounds.max b).
Proof.
  intros Hm Hp Hw Hh [Hsx Hsy] [Hpx Hpy] Htr.
  cbn [Point.x Point.y] in Hsx, Hsy, Hpx, Hpy.
  destruct (Htr (Point.multiplyBy (getSize m) (- padding (options this)))) as [Hcx Hcy].
  destruct (Htr (Point.mk 0 0)) as [H0x H0y].
  destruct (Htr (getSize m)) as [H1x H1y].
  cbn [Point.x Point.y Point.subtract Point.multiplyBy] in Hcx, Hcy, H0x, H0y, H1x, H1y.
  rewrite Hpx in Hcx, H0x, H1x. rewrite Hpy in Hcy, H0y, H1y.
  pose proof (padded_axis_covers w px _ _ _ Hw Hp Hsx Hcx) as [Hlx Hhx].
  pose proof (padded_axis_covers h py _ _ _ Hh Hp Hsy Hcy) as [Hly Hhy].
  eexists (updated m this), _.
  split; [exact (_update_run this m Hm)|]. split; [reflexivity|].
  cbv zeta. geometry. rewrite H0x, H0y, H1x, H1y.
  split; [exact Hlx|]. split; [exact Hly|]. split; [exact Hhx | exact Hhy].
Qed.

Lemma cached_bounds_cover_the_viewport_witness :
  _map odd = Some oddMap
  /\ 0 <= padding (options odd)
  /\ exists this' b,
       _update odd = OK tt this' []
       /\ _bounds this' = Some b
       /\ Point.x (Bounds.min b) <= Point.x (containerPointToLayerPoint oddMap (Point.mk 0 0))
       /\ Point.x (containerPointToLayerPoint oddMap (getSize oddMap)) <= Point.x (Bounds.max b).
Proof.
  assert (Hp : 0 <= padding (options odd)) by (unfold Qle; simpl; lia).
  assert (Hs : getSize oddMap =p= Point.mk (inject_Z 801) (inject_Z 600))
    by (split; reflexivity).
  assert (Hpos : Point.mk 0 0 =p= Point.mk (inject_Z 0) (inject_Z 0))
    by (split; reflexivity).
  assert (Htr : forall q, containerPointToLayerPoint oddMap q
                          =p= Point.subtract q (Point.mk 0 0))
    by (intros q; split; reflexivity).
  split; [reflexivity|]. split; [exact Hp|].
  destruct (cached_bounds_cover_the_viewport odd oddMap (Point.mk 0 0) 801 600 0 0
              eq_refl Hp ltac:(lia) ltac:(lia) Hs Hpos Htr)
    as (this' & b & Hrun & Hb & Hx0 & _ & Hx1 & _).
  exists this', b. split; [exact Hrun|]. split; [exact Hb|]. split; [exact Hx0 | exact Hx1].
Defined.

(** X12: a negative padding down to -1/2 shrinks the bounds instead of
    inflating them: the min corner is still [containerPointToLayerPoint(S * -p)]
    rounded and the extent [round(S * (1 + 2p))] within one pixel on each
    axis; at padding -1/2 the bounds are empty. *)
Theorem padding_down_to_minus_half_shrinks (this : Renderer) (m : Map) :
  _map this = Some m ->
  - (1 # 2) <= padding (options this) ->
  0 <= Point.x (getSize m) ->
  0 <= Point.y (getSize m) ->
  let p := padding (options this) in
  let S := getSize m in
  exists this' b,
    _update this = OK tt this' []
    /\ _bounds this' = Some b
    /\ Bounds.min b =p= Point.round (containerPointToLayerPoint m (Point.multiplyBy S (- p)))
    /\ Qabs (Bounds.width b - Math_round (Point.x S * (1 + 2 * p))) <= 1
    /\ Qabs (Bounds.height b - Math_round (Point.y S * (1 + 2 * p))) <= 1
    /\ (p == - (1 # 2) -> Bounds.width b == 0 /\ Bounds.height b == 0).
Proof.
  intros Hm Hp Hx Hy p S.
  assert (Hk : 0 <= 1 + p * 2) by (unfold p; lra).
  assert (Hwx : 0 <= Point.x S * (1 + p * 2)) by (apply Qmult_le_0_compat; assumption).
  assert (Hwy : 0 <= Point.y S * (1 + p * 2)) by (apply Qmult_le_0_compat; assumption).
  set (corner := containerPointToLayerPoint m (Point.multiplyBy S (- p))).
  pose proof (padded_axis_inflated (Point.x S) p (Point.x corner) Hwx) as (Hminx & Hmaxx & Hdx).
  pose proof (padded_axis_inflated (Point.y S) p (Point.y corner) Hwy) as (Hminy & Hmaxy & Hdy).
  assert (Ewx : Point.x S * (1 + p * 2) == Point.x S * (1 + 2 * p)) by ring.
  assert (Ewy : Point.y S * (1 + p * 2) == Point.y S * (1 + 2 * p)) by ring.
  assert (Hwidth : Bounds.width
                     (Bounds.new (Point.round corner)
                        (Point.round (Point.add (Point.round corner)
                                                (Point.multiplyBy S (1 + p * 2)))))
                   == Math_round (Point.x S * (1 + 2 * p))).
  { unfold Bounds.width. geometry. rewrite Hminx, Hmaxx, Hdx. now apply Math_round_comp. }
  assert (Hheight : Bounds.height
                      (Bounds.new (Point.round corner)
                         (Point.round (Point.add (Point.round corner)
                                                 (Point.multiplyBy S (1 + p * 2)))))
                    == Math_round (Point.y S * (1 + 2 * p))).
  { unfold Bounds.height. geometry. rewrite Hminy, Hmaxy, Hdy. now apply Math_round_comp. }
  eexists (updated m this), _.
  split; [exact (_update_run this m Hm)|]. split; [reflexivity|].
  split; [split; geometry; [exact Hminx | exact Hminy]|].
  fold p S corner.
  split; [rewrite Hwidth; apply Qabs_Qle_condition; split; lra|].
  split; [rewrite Hheight; apply Qabs_Qle_condition; split; lra|].
  intros Hhalf. rewrite Hwidth, Hheight.
  split; rewrite <- Math_round_0; apply Math_round_comp; rewrite Hhalf; ring.
Qed.

Lemma padding_down_to_minus_half_shrinks_witness :
  _map sampleMap_shrunk_renderer = Some sampleMap
  /\ - (1 # 2) <= padding (options sampleMap_shrunk_renderer)
  /\ exists this' b,
       _update sampleMap_shrunk_renderer = OK tt this' []
       /\ _bounds this' = Some b
       /\ Qabs (Bounds.width b - Math_round (800 * (1 + 2 * - (1 # 4)))) <= 1.
Proof.
  assert (Hp : - (1 # 2) <= padding (options sampleMap_shrunk_renderer))
    by (unfold Qle; simpl; lia).
  assert (Hx : 0 <= Point.x (getSize sampleMap)) by (unfold Qle; simpl; lia).
  assert (Hy : 0 <= Point.y (getSize sampleMap)) by (unfold Qle; simpl; lia).
  split; [reflexivity|]. split; [exact Hp|].
  destruct (padding_down_to_minus_half_shrinks sampleMap_shrunk_renderer sampleMap
              eq_refl Hp Hx Hy)
    as (this' & b & Hrun & Hb & _ & Hw & _).
  exists this', b. split; [exact Hrun|]. split; [exact Hb | exact Hw].
Defined.

(** ** The transform, again *)

(** X9: at a given zoom, moving the target center moves the translation by
    the opposite of the move of the viewport's new pixel origin, and leaves
    the scale alone. *)
Theorem target_center_moves_offset_with_pixel_origin
    (this : Renderer) (m : Map) (el : Element) (c1 c2 : option LatLng) (zoom : option Q) :
  _map this = Some m ->
  _container this = Some el ->
  exists o1 o2 scale,
    _updateTransform c1 zoom this = OK tt this [(view this, setTransform el o1 scale)]
    /\ _updateTransform c2 zoom this = OK tt this [(view this, setTransform el o2 scale)]
    /\ Point.subtract o1 o2
       =p= Point.subtract (_getNewPixelOrigin m c2 zoom) (_getNewPixelOrigin m c1 zoom).
Proof.
  intros Hm Hel.
  exists (topLeftOffset_of m this c1 zoom), (topLeftOffset_of m this c2 zoom),
         (scale_of m this zoom).
  split; [exact (_updateTransform_run this m el c1 zoom Hm Hel)|].
  split; [exact (_updateTransform_run this m el c2 zoom Hm Hel)|].
  unfold topLeftOffset_of, Point.eq. geometry. split; ring.
Qed.

Lemma target_center_moves_offset_with_pixel_origin_witness :
  _map settled = Some sampleMap /\ _container settled = Some 1%N
  /\ exists o1 o2 scale,
       _updateTransform (Some {| lat := 0; lng := 0 |}) (Some 6) settled
         = OK tt settled [(view settled, setTransform 1%N o1 scale)]
       /\ _updateTransform (Some {| lat := 10; lng := 20 |}) (Some 6) settled
          = OK tt settled [(view settled, setTransform 1%N o2 scale)].
Proof.
  split; [reflexivity|]. split; [reflexivity|].
  destruct (target_center_moves_offset_with_pixel_origin settled sampleMap 1%N
              (Some {| lat := 0; lng := 0 |}) (Some {| lat := 10; lng := 20 |}) (Some 6)
              eq_refl eq_refl)
    as (o1 & o2 & scale & H1 & H2 & _).
  exists o1, o2, scale. split; [exact H1 | exact H2].
Defined.

(** ** Redrawing after the cache was recomputed *)

(** X15: when [_updatePaths] runs after [_update] (the [update] notification
    an implementation fires once the bounds are recomputed), every registered
    shape receives one [_update] call, made with the recomputed bounds, center
    and zoom in place, and nothing else is logged. *)
Theorem shapes_redraw_against_the_recomputed_cache (this : Renderer) (m : Map) :
  _map this = Some m ->
  let this' := updated m this in
  exists log,
    (_update ;; _updatePaths) this = OK tt this' log
    /\ Forall (fun e => exists id layer,
                 e = (view this', call cb_update id layer)
                 /\ registered this id = Some layer) log
    /\ (forall id, calls cb_update id log
                   = match registered this id with Some _ => 1%nat | None => 0%nat end)
    /\ seen_center (view this') = Some (getCenter m)
    /\ seen_zoom (view this') = Some (getZoom m).
Proof.
  intros Hm this'.
  exists ((fun e => (view this', call cb_update e.1 e.2)) <$> entries (_layers this')).
  split.
  - eapply bind_OK; [exact (_update_run this m Hm) | cbv beta | reflexivity].
    exact (_updatePaths_run this').
  - split; [exact (dispatch_log_calls cb_update this')|].
    split; [|split; reflexivity].
    intros id. rewrite calls_dispatch. reflexivity.
Qed.

Lemma shapes_redraw_against_the_recomputed_cache_witness :
  _map attached = Some sampleMap
  /\ exists log,
       (_update ;; _updatePaths) attached = OK tt settled log
       /\ calls cb_update 9 log = 1%nat
       /\ calls cb_update 10 log = 0%nat.
Proof.
  split; [reflexivity|].
  destruct (shapes_redraw_against_the_recomputed_cache attached sampleMap eq_refl)
    as (log & Hrun & _ & Hcalls & _).
  exists log. split; [exact Hrun|]. split; [exact (Hcalls 9%N) | exact (Hcalls 10%N)].
Defined.
